(** * geoviews.util: array/geometry conversion, extents and proj strings

    A shallow embedding of [geoviews/util.py].  Python exceptions are an
    explicit [result] type, numpy arrays are lists of rows, dictionaries are
    finite maps with string keys, and the geometry and projection libraries
    the module consumes are value constructors or section variables. *)

From Stdlib Require Import ZArith QArith Qround Floats String Ascii Lia Lqa.
From stdpp Require Import gmap strings list.

Set Default Proof Using "Type".

(** ** Python-level effects: exceptions as values *)

Inductive exn : Type :=
| ValueError (msg : string)
| KeyError (key : string)
| IndexError (msg : string)
| TypeError (msg : string)
| AttributeError (attr : string)
| UnboundLocalError (var : string)
| NotImplementedError (msg : string)
| RuntimeError (msg : string)
| OtherError (cls msg : string).

Inductive result (X : Type) : Type :=
| Ok (x : X)
| Raise (e : exn).
Arguments Ok {X} x.
Arguments Raise {X} e.

Definition result_bind {X Y : Type} (m : result X) (f : X → result Y) : result Y :=
  match m with
  | Ok x => f x
  | Raise e => Raise e
  end.

Notation "x <- m ; k" := (result_bind m (fun x => k))
  (at level 20, m at level 100, k at level 200, only parsing).
Notation "' pat <- m ; k" := (result_bind m (fun x => match x with pat => k end))
  (at level 20, pat pattern, m at level 100, k at level 200, only parsing).

Definition raised {X : Type} (m : result X) : Prop :=
  match m with
  | Ok _ => False
  | Raise _ => True
  end.

(** [for x in l: s = f(s, x)] with a body that may raise. *)
Fixpoint foldlM {S X : Type} (f : S → X → result S) (s : S) (l : list X) : result S :=
  match l with
  | [] => Ok s
  | x :: l' => s' <- f s x; foldlM f s' l'
  end.

(** [enumerate(l)] *)
Fixpoint enumerate_from {X : Type} (i : nat) (l : list X) : list (nat * X) :=
  match l with
  | [] => []
  | x :: l' => (i, x) :: enumerate_from (S i) l'
  end.

Definition enumerate {X : Type} (l : list X) : list (nat * X) := enumerate_from 0 l.

(** [l[i]] on a Python list. *)
Definition py_index {X : Type} (l : list X) (i : nat) : result X :=
  match l !! i with
  | Some x => Ok x
  | None => Raise (IndexError "list index out of range")
  end.

(** Reading a local variable that an earlier statement may not have bound. *)
Definition read_local {X : Type} (name : string) (v : option X) : result X :=
  match v with
  | Some x => Ok x
  | None => Raise (UnboundLocalError name)
  end.

(** ** Coordinates: any numeric type with a not-a-number value *)

Class Coord (A : Type) : Type := {
  NaN : A;
  isnan : A → bool;
  isnan_NaN : isnan NaN = true
}.

(** numpy's float64 *)
#[export] Instance float_Coord : Coord float :=
  {| NaN := nan; isnan := is_nan; isnan_NaN := eq_refl |}.

(** ** Geometry values (shapely.geometry) *)

#[warnings="-register-all"]
Inductive geometry (A : Type) : Type :=
| Point (x y : A)
| LineString (coords : list (A * A))
| LinearRing (coords : list (A * A))
| Polygon (shell : list (A * A)) (holes : list (list (A * A)))
| MultiPoint (geoms : list (geometry A))
| MultiLineString (geoms : list (geometry A))
| MultiPolygon (geoms : list (geometry A))
| GeometryCollection (geoms : list (geometry A)).
Arguments Point {A} x y.
Arguments LineString {A} coords.
Arguments LinearRing {A} coords.
Arguments Polygon {A} shell holes.
Arguments MultiPoint {A} geoms.
Arguments MultiLineString {A} geoms.
Arguments MultiPolygon {A} geoms.
Arguments GeometryCollection {A} geoms.

Definition geom_type {A : Type} (g : geometry A) : string :=
  match g with
  | Point _ _ => "Point"
  | LineString _ => "LineString"
  | LinearRing _ => "LinearRing"
  | Polygon _ _ => "Polygon"
  | MultiPoint _ => "MultiPoint"
  | MultiLineString _ => "MultiLineString"
  | MultiPolygon _ => "MultiPolygon"
  | GeometryCollection _ => "GeometryCollection"
  end.

(** [geom.exterior]: only polygons have the attribute. *)
Definition exterior {A : Type} (g : geometry A) : result (geometry A) :=
  match g with
  | Polygon shell _ => Ok (LinearRing shell)
  | _ => Raise (AttributeError "exterior")
  end.

(** [hasattr(geom, 'exterior')] *)
Definition has_exterior {A : Type} (g : geometry A) : bool :=
  match g with
  | Polygon _ _ => true
  | _ => false
  end.

(** [for g in geom]: the parts of a multi-part geometry. *)
Definition iter_geom {A : Type} (g : geometry A) : result (list (geometry A)) :=
  match g with
  | MultiPoint gs | MultiLineString gs | MultiPolygon gs | GeometryCollection gs => Ok gs
  | _ => Raise (TypeError "object is not iterable")
  end.

(** The coordinate sequence a line, ring or point carries. *)
Definition coords_of {A : Type} (g : geometry A) : list (A * A) :=
  match g with
  | Point x y => [(x, y)]
  | LineString cs | LinearRing cs => cs
  | Polygon shell _ => shell
  | _ => []
  end.

(** [Polygon(shell, holes)] where the holes are ring objects. *)
Definition Polygon_of {A : Type} (shell : list (A * A)) (holes : list (geometry A)) : geometry A :=
  Polygon shell (coords_of <$> holes).

(** ** numpy helpers *)

(** [np.where(c)[0]] for a 1-d integer array: the indices of its non-zero entries. *)
Fixpoint np_where_from (i : nat) (c : list nat) : list nat :=
  match c with
  | [] => []
  | n :: c' => if bool_decide (n = 0) then np_where_from (S i) c' else i :: np_where_from (S i) c'
  end.

Definition np_where (c : list nat) : list nat := np_where_from 0 c.

(** [ary[st:en]] for non-negative bounds. *)
Definition slice {X : Type} (st en : nat) (l : list X) : list X := take (en - st) (drop st l).

(** [np.split(ary, indices)]: the pieces between consecutive division points
    [0, i1, ..., ik, len(ary)]. *)
Fixpoint np_split_from {X : Type} (st : nat) (ary : list X) (indices : list nat) : list (list X) :=
  match indices with
  | [] => [slice st (length ary) ary]
  | i :: indices' => slice st i ary :: np_split_from i ary indices'
  end.

Definition np_split {X : Type} (ary : list X) (indices : list nat) : list (list X) :=
  np_split_from 0 ary indices.

(** [np.column_stack([xs, ys])] for two 1-d arrays. *)
Definition column_stack {A : Type} (xs ys : list A) : result (list (A * A)) :=
  if bool_decide (length xs = length ys) then Ok (zip xs ys)
  else Raise (ValueError "all the input array dimensions must match exactly").

(** [np.concatenate(arrays)] for 1-d arrays. *)
Definition np_concatenate {A : Type} (arrays : list (list A)) : result (list A) :=
  match arrays with
  | [] => Raise (ValueError "need at least one array to concatenate")
  | _ => Ok (concat arrays)
  end.

(** ** Array Segmenter: the three lines every builder repeats

    [splits = np.where(np.isnan(array[:, :2].astype('float')).sum(axis=1))[0]]
    [arrays = np.split(array, splits+1) if len(splits) else [array]]
    and, inside the loop, [if j != (len(arrays)-1): arr = arr[:-1]]. *)

Section Segmenter.
Context {A : Type} `{Coord A} {R : Type} (xy : R → A * A).

(** [np.isnan(row[:2]).sum()] *)
Definition nan_sum (r : R) : nat :=
  (if isnan (xy r).1 then 1 else 0) + (if isnan (xy r).2 then 1 else 0).

Definition nan_splits (array : list R) : list nat := np_where (nan_sum <$> array).

Definition split_at_nans (array : list R) : list (list R) :=
  let splits := nan_splits array in
  if bool_decide (length splits ≠ 0) then np_split array (S <$> splits) else [array].

(** [arr[:-1]] for every sub-array but the last. *)
Definition drop_nan (arrays : list (list R)) (j : nat) (arr : list R) : list R :=
  if bool_decide (j ≠ length arrays - 1) then take (length arr - 1) arr else arr.

(** The sub-arrays as the loop body sees them after the drop. *)
Definition segments (array : list R) : list (list R) :=
  let arrays := split_at_nans array in
  (λ ja, drop_nan arrays ja.1 ja.2) <$> enumerate arrays.

End Segmenter.

(** ** Elements: what the builders read from a Path or Polygons element

    [split_array], [split_geom] and [split_columns] are what
    [element.split(datatype=...)] yields for the three datatypes; an array
    row carries its first two columns and the remaining ones. *)

Inductive pyval (A : Type) : Type :=
| VArray (xs : list A)
| VGeom (g : geometry A)
| VAttr (s : string).
Arguments VArray {A} xs.
Arguments VGeom {A} g.
Arguments VAttr {A} s.

Record element (A : Type) : Type := {
  interface_datatype : string;
  kdims : list string;
  split_array : list (list (A * A * list A));
  split_geom : list (geometry A);
  split_columns : list (gmap string (pyval A));
  data : list (gmap string (pyval A));
  has_holes : bool;
  holes : list (list (list (list (A * A))))
}.
Arguments interface_datatype {A} e.
Arguments kdims {A} e.
Arguments split_array {A} e.
Arguments split_geom {A} e.
Arguments split_columns {A} e.
Arguments data {A} e.
Arguments has_holes {A} e.
Arguments holes {A} e.

(** What [path_to_geom] and [polygon_to_geom] return: a geometry or a list. *)
Inductive retval (A : Type) : Type :=
| RGeom (g : geometry A)
| RList (gs : list (geometry A)).
Arguments RGeom {A} g.
Arguments RList {A} gs.

(** [xdim, ydim = element.kdims] *)
Definition unpack2 {X : Type} (l : list X) : result (X * X) :=
  match l with
  | [a; b] => Ok (a, b)
  | _ => Raise (ValueError "wrong number of values to unpack")
  end.

(** [d.pop(k)] *)
Definition dict_pop {V : Type} (k : string) (d : gmap string V) : result (V * gmap string V) :=
  match d !! k with
  | Some v => Ok (v, delete k d)
  | None => Raise (KeyError k)
  end.

(** A coordinate column must be an array. *)
Definition as_array {A : Type} (v : pyval A) : result (list A) :=
  match v with
  | VArray xs => Ok xs
  | _ => Raise (TypeError "coordinate column is not an array")
  end.

(** [np.column_stack([d.pop(xname), d.pop(yname)])] together with the
    dictionary the two pops leave behind. *)
Definition pop_coordinates {A : Type} (xname yname : string) (d : gmap string (pyval A))
  : result (list (A * A) * gmap string (pyval A)) :=
  '(vx, d) <- dict_pop xname d;
  '(vy, d) <- dict_pop yname d;
  xs <- as_array vx;
  ys <- as_array vy;
  array <- column_stack xs ys;
  Ok (array, d).

Section Builders.
Context {A : Type} `{Coord A}.

(** *** Line Builder: [path_to_geom] *)

(** The body of [for i, path in enumerate(paths)] for array input. *)
Definition path_to_geom_part (paths : list (list (A * A * list A)))
    (lines : list (geometry A)) (ip : nat * list (A * A * list A)) : list (geometry A) :=
  let path := drop_nan paths ip.1 ip.2 in
  if bool_decide (length path < 2) then lines
  else lines ++ [LineString (fst <$> path)].

Definition path_to_geom_array (lines : list (geometry A)) (path : list (A * A * list A))
  : list (geometry A) :=
  let paths := split_at_nans fst path in
  foldl (path_to_geom_part paths) lines (enumerate paths).

(** The body of the loop for geometry input. *)
Definition path_to_geom_geom (lines : list (geometry A)) (path : geometry A)
  : result (list (geometry A)) :=
  if String.eqb (geom_type path) "MultiPolygon" then
    geoms <- iter_geom path;
    foldlM (λ lines geom, e <- exterior geom; Ok (lines ++ [e])) lines geoms
  else
    path <- (if String.eqb (geom_type path) "Polygon" then exterior path else Ok path);
    if String.eqb (geom_type path) "MultiLineString" then
      geoms <- iter_geom path;
      Ok (foldl (λ lines geom, lines ++ [geom]) lines geoms)
    else Ok (lines ++ [path]).

Definition path_to_geom (path : element A) (multi skip_invalid : bool) : result (retval A) :=
  let datatype := if String.eqb (interface_datatype path) "geodataframe" then "geom" else "array" in
  lines <- (if String.eqb datatype "array"
           then Ok (foldl path_to_geom_array [] (split_array path))
           else foldlM path_to_geom_geom [] (split_geom path));
  Ok (if multi then RGeom (MultiLineString lines) else RList lines).

(** *** Polygon Builder: [polygon_to_geom] *)

Variable convex_hull : geometry A → geometry A.

Definition polygon_to_geom_part (skip_invalid : bool) (paths : list (list (A * A * list A)))
    (lines : list (geometry A)) (ip : nat * list (A * A * list A)) : list (geometry A) :=
  let path := drop_nan paths ip.1 ip.2 in
  if bool_decide (length path < 3) then
    if skip_invalid then lines else lines ++ [LineString (fst <$> path)]
  else lines ++ [Polygon (fst <$> path) []].

Definition polygon_to_geom_array (skip_invalid : bool) (lines : list (geometry A))
    (path : list (A * A * list A)) : list (geometry A) :=
  let paths := split_at_nans fst path in
  foldl (polygon_to_geom_part skip_invalid paths) lines (enumerate paths).

Definition polygon_to_geom_geom (lines : list (geometry A)) (path : geometry A)
  : result (list (geometry A)) :=
  if String.eqb (geom_type path) "MultiLineString" then
    geoms <- iter_geom path;
    Ok (foldl (λ lines geom, lines ++ [convex_hull geom]) lines geoms)
  else if String.eqb (geom_type path) "MultiPolygon" then
    geoms <- iter_geom path;
    Ok (foldl (λ lines geom, lines ++ [geom]) lines geoms)
  else if String.eqb (geom_type path) "LineString" then Ok (lines ++ [convex_hull path])
  else Ok (lines ++ [path]).

Definition polygon_to_geom (poly : element A) (multi skip_invalid : bool) : result (retval A) :=
  let datatype := if String.eqb (interface_datatype poly) "geodataframe" then "geom" else "array" in
  lines <- (if String.eqb datatype "array"
           then Ok (foldl (polygon_to_geom_array skip_invalid) [] (split_array poly))
           else foldlM polygon_to_geom_geom [] (split_geom poly));
  Ok (if multi then RGeom (MultiPolygon lines) else RList lines).

(** *** Geometry-Dict Assembler: [polygons_to_geom_dicts] *)

(** The body of [for j, arr in enumerate(arrays)] after its first statement
    (the drop); the state is [(invalid, subpolys)]. *)
Definition polygons_body (skip_invalid has_holes : bool) (no_splits : bool)
    (subholes : list (list (geometry A)))
    (st : bool * list (geometry A)) (jarr : nat * list (A * A))
  : result (bool * list (geometry A)) :=
  let '(invalid, subpolys) := st in
  let j := jarr.1 in
  let arr := jarr.2 in
  if bool_decide (length arr < 3) then
    if skip_invalid then Ok (invalid, subpolys)
    else Ok (true, subpolys ++ [LineString arr])
  else if no_splits then
    hs <- (if has_holes then py_index subholes j else Ok []);
    Ok (invalid, subpolys ++ [Polygon_of arr hs])
  else
    let poly := Polygon arr [] in
    hs <- (if has_holes then py_index subholes j else Ok []);
    ext <- exterior poly;
    Ok (invalid, subpolys ++ [Polygon_of (coords_of ext) hs]).

(** The whole body: [if j != (len(arrays)-1): arr = arr[:-1]], then the rest. *)
Definition polygons_part (skip_invalid has_holes : bool) (no_splits : bool)
    (subholes : list (list (geometry A))) (arrays : list (list (A * A)))
    (st : bool * list (geometry A)) (ja : nat * list (A * A))
  : result (bool * list (geometry A)) :=
  polygons_body skip_invalid has_holes no_splits subholes st
                (ja.1, drop_nan arrays ja.1 ja.2).

(** The sub-polygons of feature [i]. *)
Definition polygons_subpolys (skip_invalid has_holes : bool)
    (holes : list (list (list (list (A * A))))) (i : nat) (array : list (A * A))
  : result (bool * list (geometry A)) :=
  let splits := nan_splits id array in
  let arrays := split_at_nans id array in
  subholes <- (if has_holes
              then hsi <- py_index holes i;
                   Ok (fmap (M:=list) (fmap (M:=list) LinearRing) hsi)
              else Ok []);
  foldlM (polygons_part skip_invalid has_holes (bool_decide (length splits = 0)) subholes arrays)
         (false, []) (enumerate arrays).

(** The body of [for i, polygon in enumerate(...)]; the state is [polys]. *)
Definition polygons_feature (skip_invalid has_holes : bool)
    (holes : list (list (list (list (A * A))))) (xname yname : string)
    (polys : list (gmap string (pyval A))) (ip : nat * gmap string (pyval A))
  : result (list (gmap string (pyval A))) :=
  '(array, polygon) <- pop_coordinates xname yname ip.2;
  '(invalid, subpolys) <- polygons_subpolys skip_invalid has_holes holes ip.1 array;
  if invalid then Ok (polys ++ ((λ sp, <["geometry" := VGeom sp]> polygon) <$> subpolys))
  else if bool_decide (length subpolys = 1) then
    geom <- py_index subpolys 0;
    Ok (polys ++ [<["geometry" := VGeom geom]> polygon])
  else if bool_decide (subpolys ≠ []) then
    Ok (polys ++ [<["geometry" := VGeom (MultiPolygon subpolys)]> polygon])
  else Ok polys.

Definition polygons_to_geom_dicts (polygons : element A) (skip_invalid : bool)
  : result (list (gmap string (pyval A))) :=
  let interface := interface_datatype polygons in
  if String.eqb interface "geodataframe" then Ok (data polygons)
  else if String.eqb interface "geom_dictionary" then Ok (data polygons)
  else
    '(xdim, ydim) <- unpack2 (kdims polygons);
    foldlM (polygons_feature skip_invalid (has_holes polygons) (holes polygons) xdim ydim)
           [] (enumerate (split_columns polygons)).

(** *** Geometry-Dict Assembler: [path_to_geom_dicts] *)

Definition path_dicts_part (arrays : list (list (A * A)))
    (subpaths : list (geometry A)) (ja : nat * list (A * A)) : list (geometry A) :=
  let arr := drop_nan arrays ja.1 ja.2 in
  if bool_decide (length arr < 2) then subpaths
  else subpaths ++ [LineString arr].

Definition path_dicts_subpaths (array : list (A * A)) : list (geometry A) :=
  let arrays := split_at_nans id array in
  foldl (path_dicts_part arrays) [] (enumerate arrays).

(** The body of [for i, path in enumerate(...)].  [geom] is a local of the
    function, not of the iteration: the state carries its binding, if any,
    from one feature to the next, with the list [geoms]. *)
Definition path_dicts_feature (xname yname : string)
    (st : option (geometry A) * list (gmap string (pyval A))) (ip : nat * gmap string (pyval A))
  : result (option (geometry A) * list (gmap string (pyval A))) :=
  let '(geom, geoms) := st in
  '(array, path) <- pop_coordinates xname yname ip.2;
  let subpaths := path_dicts_subpaths array in
  geom <- (if bool_decide (length subpaths = 1) then g <- py_index subpaths 0; Ok (Some g)
          else if bool_decide (subpaths ≠ []) then Ok (Some (MultiLineString subpaths))
          else Ok geom);
  g <- read_local "geom" geom;
  Ok (geom, geoms ++ [<["geometry" := VGeom g]> path]).

Definition path_to_geom_dicts (path : element A) : result (list (gmap string (pyval A))) :=
  let interface := interface_datatype path in
  if String.eqb interface "geodataframe" then Ok (data path)
  else if String.eqb interface "geom_dictionary" then Ok (data path)
  else
    '(xdim, ydim) <- unpack2 (kdims path);
    st <- foldlM (path_dicts_feature xdim ydim) (None, []) (enumerate (split_columns path));
    Ok st.2.

End Builders.

(** ** Array Recoverer: [geom_to_arr] and [geom_to_array] *)

Section Recoverer.
Context {A : Type} `{Coord A}.

(** [geom.array_interface_base['data']]: the flat coordinate buffer of a
    point, line or ring (a polygon answers with its exterior's buffer, a
    multi-point with its points'); other multi-part geometries have none. *)
Definition flat_coords (cs : list (A * A)) : list A := cs ≫= λ c, [c.1; c.2].

Definition array_interface_data (g : geometry A) : result (list A) :=
  match g with
  | Point x y => Ok [x; y]
  | LineString cs | LinearRing cs => Ok (flat_coords cs)
  | Polygon shell _ => Ok (flat_coords shell)
  | MultiPoint gs => Ok (flat_coords (gs ≫= coords_of))
  | _ => Raise (NotImplementedError "Multi-part geometries have no ctypes representations")
  end.

(** [np.array(arr).reshape(len(arr)/2, 2)] *)
Fixpoint reshape2 (arr : list A) : list (A * A) :=
  match arr with
  | x :: y :: arr' => (x, y) :: reshape2 arr'
  | _ => []
  end.

Definition geom_to_arr (geom : geometry A) : result (list (A * A)) :=
  arr <- array_interface_data geom;
  let arr := if bool_decide (length arr mod 2 ≠ 0) then take (length arr - 1) arr else arr in
  Ok (reshape2 arr).

(** The body of [for g in geom]; the state is the pair of lists [(xs, ys)]. *)
Definition geom_to_array_part (st : list (list A) * list (list A)) (g : geometry A)
  : result (list (list A) * list (list A)) :=
  let '(xs, ys) := st in
  arr <- geom_to_arr g;
  let xs := xs ++ [arr.*1] in
  let ys := ys ++ [arr.*2] in
  let xs := xs ++ [[NaN]] in
  let ys := ys ++ [[NaN]] in
  Ok (xs, ys).

Definition geom_to_array (geom : geometry A) : result (list (A * A)) :=
  match geom with
  | Point x y => Ok [(x, y)]
  | _ =>
    if has_exterior geom then
      ext <- exterior geom;
      column_stack (coords_of ext).*1 (coords_of ext).*2
    else if String.eqb (geom_type geom) "LineString" || String.eqb (geom_type geom) "LinearRing" then
      geom_to_arr geom
    else
      gs <- iter_geom geom;
      '(xs, ys) <- foldlM geom_to_array_part ([], []) gs;
      xs <- (if bool_decide (xs ≠ []) then np_concatenate (take (length xs - 1) xs) else Ok []);
      ys <- (if bool_decide (ys ≠ []) then np_concatenate (take (length ys - 1) ys) else Ok []);
      column_stack xs ys
  end.

(** The geometries that hold parts. *)
Definition has_parts (geom : geometry A) : bool :=
  match geom with
  | MultiPoint _ | MultiLineString _ | MultiPolygon _ | GeometryCollection _ => true
  | _ => false
  end.

End Recoverer.

(** ** [to_ccw]

    [is_ccw] is the ring attribute of the geometry library, [orient] its
    [shapely.geometry.polygon.orient]. *)

Section Orientation.
Context {A : Type} (is_ccw : geometry A → bool) (orient : geometry A → geometry A).

(** [isinstance(geom, sgeom.Polygon)] *)
Definition isinstance_Polygon (geom : geometry A) : bool := has_exterior geom.

Definition to_ccw (geom : geometry A) : result (geometry A) :=
  reorient <- (if isinstance_Polygon geom
               then ring <- exterior geom; Ok (negb (is_ccw ring))
               else Ok false);
  if (reorient : bool) then Ok (orient geom) else Ok geom.

End Orientation.

(** ** Numbers: the float operations [wrap_lons] and [project_extents] use

    The code computes in float64.  [Numeric] names the operations; it has
    two instances, IEEE binary64 itself and exact rational arithmetic (the
    idealisation in which a statement "up to floating tolerance" is exact). *)

Class Numeric (F : Type) : Type := {
  of_Z : Z → F;
  fadd : F → F → F;
  fsub : F → F → F;
  fmul : F → F → F;
  fdiv : F → F → F;
  fopp : F → F;
  fmod : F → F → F;
  fltb : F → F → bool
}.

(** C's [fmod] on binary64: exact, with the sign of the dividend. *)
Definition c_fmod (a b : float) : float :=
  match Prim2SF a, Prim2SF b with
  | S754_nan, _ | _, S754_nan => PrimFloat.nan
  | S754_infinity _, _ => PrimFloat.nan
  | _, S754_zero _ => PrimFloat.nan
  | _, S754_infinity _ => a
  | S754_zero _, _ => a
  | S754_finite sa ma ea, S754_finite _ mb eb =>
      let e := Z.min ea eb in
      let r := Z.rem (Z.pos ma * 2 ^ (ea - e)) (Z.pos mb * 2 ^ (eb - e)) in
      if (r =? 0)%Z then (if sa then PrimFloat.neg_zero else PrimFloat.zero)
      else SF2Prim (binary_normalize prec emax (if sa then - r else r)%Z e false)
  end.

(** numpy's [%] on float64: [fmod] moved to the sign of the divisor. *)
Definition np_remainder (a b : float) : float :=
  let rem := c_fmod a b in
  if PrimFloat.eqb b PrimFloat.zero then rem
  else if negb (PrimFloat.eqb rem PrimFloat.zero) then
    if negb (Bool.eqb (PrimFloat.ltb b PrimFloat.zero) (PrimFloat.ltb rem PrimFloat.zero)) then PrimFloat.add rem b else rem
  else if PrimFloat.ltb b PrimFloat.zero then PrimFloat.neg_zero else PrimFloat.zero.

Definition float_of_Z (z : Z) : float :=
  match z with
  | Z0 => PrimFloat.zero
  | Zpos p => PrimFloat.of_uint63 (Uint63.of_Z (Zpos p))
  | Zneg p => PrimFloat.opp (PrimFloat.of_uint63 (Uint63.of_Z (Zpos p)))
  end.

#[export] Instance float_Numeric : Numeric float := {|
  of_Z := float_of_Z;
  fadd := PrimFloat.add;
  fsub := PrimFloat.sub;
  fmul := PrimFloat.mul;
  fdiv := PrimFloat.div;
  fopp := PrimFloat.opp;
  fmod := np_remainder;
  fltb := PrimFloat.ltb
|}.

(** Exact arithmetic: [x mod p = x - p * floor (x / p)]. *)
Definition Qmod (x p : Q) : Q := (x - p * inject_Z (Qfloor (x / p)))%Q.

Definition Qltb (x y : Q) : bool := negb (Qle_bool y x).

#[export] Instance Q_Numeric : Numeric Q := {|
  of_Z := inject_Z;
  fadd := Qplus;
  fsub := Qminus;
  fmul := Qmult;
  fdiv := Qdiv;
  fopp := Qopp;
  fmod := Qmod;
  fltb := Qltb
|}.

Section Extents.
Context {F : Type} `{Numeric F}.

(** *** [wrap_lons] *)

Definition wrap_lon (base period lon : F) : F :=
  fadd (fmod (fadd (fsub lon base) (fmul period (of_Z 2))) period) base.

Definition wrap_lons (lons : list F) (base period : F) : list F :=
  wrap_lon base period <$> lons.

(** [np.linspace(start, stop, num)]: [num] evenly spaced samples, the last
    one set to [stop]. *)
Definition linspace (start stop : F) (num : N) : list F :=
  if (num =? 0)%N then []
  else if (num =? 1)%N then [start]
  else
    let div := N.to_nat (num - 1) in
    let step := fdiv (fsub stop start) (of_Z (Z.of_nat div)) in
    ((λ i, fadd (fmul (of_Z (Z.of_nat i)) step) start) <$> seq 0 div) ++ [stop].

Definition fmin (a b : F) : F := if fltb b a then b else a.
Definition fmax (a b : F) : F := if fltb a b then b else a.

(** [arr.min()] and [arr.max()] *)
Definition np_min (arr : list F) : result F :=
  match arr with
  | [] => Raise (ValueError "zero-size array to reduction operation minimum which has no identity")
  | x :: arr' => Ok (foldl fmin x arr')
  end.

Definition np_max (arr : list F) : result F :=
  match arr with
  | [] => Raise (ValueError "zero-size array to reduction operation maximum which has no identity")
  | x :: arr' => Ok (foldl fmax x arr')
  end.

(** *** Coordinate reference systems (cartopy.crs) *)

Record CRS : Type := {
  crs_name : string;
  x_limits : F * F;
  y_limits : F * F;
  is_cylindrical : bool;
  boundary : geometry F;
  threshold : F
}.

(** The operations of the geometry and projection libraries
    [project_extents] calls. *)
Record GeoLib : Type := {
  crs_ne : CRS → CRS → bool;
  buffer : geometry F → F → geometry F;
  intersection : geometry F → geometry F → geometry F;
  bounds : geometry F → F * F * F * F;
  project_geometry : CRS → geometry F → CRS → result (geometry F)
}.

Definition projection_error (src_name dest_name : string) : exn :=
  ValueError ("Could not project data from " +:+ src_name +:+ " projection "
              +:+ "to " +:+ dest_name +:+ " projection. Ensure the coordinate "
              +:+ "reference system (crs) matches your data "
              +:+ "and the kdims.").

(** The rectangle [Polygon([[x1, y1], [x2, y1], [x2, y2], [x1, y2], [x1, y1]])]. *)
Definition domain_polygon (x1 y1 x2 y2 : F) : geometry F :=
  Polygon [(x1, y1); (x2, y1); (x2, y2); (x1, y2); (x1, y1)] [].

(** The first half of [project_extents]: limit the latitudes, offset with
    the tolerance, wrap or limit the longitudes. *)
Definition clip_extents (extents : F * F * F * F) (src_proj : CRS) (tol : F)
  : result (F * F * F * F) :=
  let '(x1, y1, x2, y2) := extents in
  let '(cy1, cy2) := y_limits src_proj in
  let y1 := if fltb y1 cy1 then cy1 else y1 in
  let y2 := if fltb cy2 y2 then cy2 else y2 in
  let x1 := fadd x1 tol in
  let x2 := fsub x2 tol in
  let y1 := fadd y1 tol in
  let y2 := fsub y2 tol in
  let '(cx1, cx2) := x_limits src_proj in
  '(x1, x2) <- (if is_cylindrical src_proj then
                  let lons := wrap_lons (linspace x1 x2 10000%N) (of_Z (-180)) (of_Z 360) in
                  lo <- np_min lons;
                  hi <- np_max lons;
                  Ok (lo, hi)
                else
                  let x1 := if fltb x1 cx1 then cx1 else x1 in
                  let x2 := if fltb cx2 x2 then cx2 else x2 in
                  Ok (x1, x2));
  Ok (x1, y1, x2, y2).

(** The region handed to [project_geometry] when the projections differ:
    the eroded boundary intersected with the rectangle. *)
Definition geom_in_src_proj (lib : GeoLib) (src_proj : CRS) (box : F * F * F * F)
  : geometry F :=
  let '(x1, y1, x2, y2) := box in
  let boundary_poly := Polygon (coords_of (boundary src_proj)) [] in
  let eroded_boundary := buffer lib boundary_poly (fopp (threshold src_proj)) in
  intersection lib eroded_boundary (domain_polygon x1 y1 x2 y2).

Definition project_extents (lib : GeoLib) (extents : F * F * F * F) (src_proj dest_proj : CRS)
    (tol : F) : result (F * F * F * F) :=
  box <- clip_extents extents src_proj tol;
  let '(x1, y1, x2, y2) := box in
  let domain_in_src_proj := domain_polygon x1 y1 x2 y2 in
  let boundary_poly := Polygon (coords_of (boundary src_proj)) [] in
  geom_in_crs <- (if crs_ne lib src_proj dest_proj then
                    match project_geometry lib dest_proj (geom_in_src_proj lib src_proj box)
                                           src_proj with
                    | Ok g => Ok g
                    | Raise (ValueError _) =>
                        Raise (projection_error (crs_name src_proj) (crs_name dest_proj))
                    | Raise e => Raise e
                    end
                  else Ok (intersection lib boundary_poly domain_in_src_proj));
  Ok (bounds lib geom_in_crs).

End Extents.
Arguments CRS F : clear implicits.
Arguments GeoLib F : clear implicits.

(** ** Proj-String Parser: [check_crs] and [proj_to_cartopy] *)

(** [str.isspace] on one character (code points below 256). *)
Definition is_space (c : ascii) : bool :=
  let n := nat_of_ascii c in
  (9 <=? n) && (n <=? 13) || (28 <=? n) && (n <=? 32) || (n =? 133) || (n =? 160).

(** [s.split(sep)] for a one-character separator. *)
Fixpoint str_split (sep : ascii) (s : string) : list string :=
  match s with
  | EmptyString => [EmptyString]
  | String c s' =>
      if Ascii.eqb c sep then EmptyString :: str_split sep s'
      else match str_split sep s' with
           | h :: t => String c h :: t
           | [] => [String c EmptyString]
           end
  end.

Fixpoint str_lstrip (s : string) : string :=
  match s with
  | EmptyString => EmptyString
  | String c s' => if is_space c then str_lstrip s' else s
  end.

Fixpoint str_rstrip (s : string) : string :=
  match s with
  | EmptyString => EmptyString
  | String c s' =>
      match str_rstrip s' with
      | EmptyString => if is_space c then EmptyString else String c EmptyString
      | r => String c r
      end
  end.

(** [s.strip()] *)
Definition str_strip (s : string) : string := str_rstrip (str_lstrip s).

(** The cartopy classes the parser can resolve. *)
Inductive proj_class : Type :=
| TransverseMercator
| LambertConformal
| Mercator
| UTM.

(** [cl.__name__] *)
Definition class_name (cl : proj_class) : string :=
  match cl with
  | TransverseMercator => "TransverseMercator"
  | LambertConformal => "LambertConformal"
  | Mercator => "Mercator"
  | UTM => "UTM"
  end.

(** A keyword value: a parsed number, the text itself, or a pair. *)
Inductive kwval (N : Type) : Type :=
| KNum (n : N)
| KStr (s : string)
| KTuple (a b : kwval N).
Arguments KNum {N} n.
Arguments KStr {N} s.
Arguments KTuple {N} a b.

(** [v == 'text'] *)
Definition kw_is {N : Type} (v : kwval N) (text : string) : bool :=
  match v with
  | KStr s => String.eqb s text
  | _ => false
  end.

(** A pyproj.Proj object, as far as the parser reads it. *)
Record Proj : Type := { is_latlong : bool; srs : string }.

Inductive crs_arg : Type :=
| AProj (p : Proj)
| AStr (s : string)
| ADict (d : gmap string string)
| AOther.

(** The call the parser ends in: [ccrs.PlateCarree()], or the resolved
    class called with [globe] and the keywords of [kw_proj], where the globe
    is [None] or [ccrs.Globe] called with the keywords of [kw_globe]. *)
Inductive projection (N : Type) : Type :=
| PlateCarree_call
| Class_call (cl : proj_class) (globe : option (gmap string (kwval N)))
             (kw_proj : gmap string (kwval N)).
Arguments PlateCarree_call {N}.
Arguments Class_call {N} cl globe kw_proj.

Definition km_proj : gmap string string :=
  list_to_map [("lon_0", "central_longitude");
               ("lat_0", "central_latitude");
               ("x_0", "false_easting");
               ("y_0", "false_northing");
               ("k", "scale_factor");
               ("zone", "zone")].

Definition km_globe : gmap string string :=
  list_to_map [("a", "semimajor_axis");
               ("b", "semiminor_axis")].

Definition km_std : gmap string string :=
  list_to_map [("lat_1", "lat_1");
               ("lat_2", "lat_2")].

Record parser_state (N : Type) : Type := {
  cl : option proj_class;
  kw_proj : gmap string (kwval N);
  kw_globe : gmap string (kwval N);
  kw_std : gmap string (kwval N)
}.
Arguments cl {N} p.
Arguments kw_proj {N} p.
Arguments kw_globe {N} p.
Arguments kw_std {N} p.

(** [d[k]] *)
Definition dict_get {V : Type} (k : string) (d : gmap string V) : result V :=
  match d !! k with
  | Some v => Ok v
  | None => Raise (KeyError k)
  end.

Section ProjParser.
Context {N : Type}.
(** [float(v)], [pyproj.Proj(crs)], [pyproj.Proj(init=crs)] and, when GDAL
    is installed, the round trip through [osr.SpatialReference]. *)
Variable py_float : string → option N.
Variable pyproj_Proj : crs_arg → result Proj.
Variable pyproj_Proj_init : crs_arg → result Proj.
Variable osr_export : option (string → string).

Definition check_crs (crs : crs_arg) : result (option Proj) :=
  match crs with
  | AProj p => Ok (Some p)
  | AStr _ | ADict _ =>
      match pyproj_Proj crs with
      | Ok out => Ok (Some out)
      | Raise (RuntimeError _) =>
          match pyproj_Proj_init crs with
          | Ok out => Ok (Some out)
          | Raise (RuntimeError _) => Ok None
          | Raise e => Raise e
          end
      | Raise e => Raise e
      end
  | AOther => Ok None
  end.

(** [try: v = float(v) except: pass] *)
Definition parse_value (v : string) : kwval N :=
  match py_float v with
  | Some x => KNum x
  | None => KStr v
  end.

(** [if k in km: kw[km[k]] = v] *)
Definition collect (km : gmap string string) (k : string) (v : kwval N)
    (kw : gmap string (kwval N)) : gmap string (kwval N) :=
  match km !! k with
  | Some name => <[name := v]> kw
  | None => kw
  end.

(** The body of [for s in srs.split('+')]. *)
Definition parse_token (st : parser_state N) (s : string) : parser_state N :=
  match str_split "=" s with
  | [k; v] =>
      let k := str_strip k in
      let v := parse_value (str_strip v) in
      let cl0 := cl st in
      let cl0 :=
        if String.eqb k "proj" then
          let cl1 := if kw_is v "tmerc" then Some TransverseMercator else cl0 in
          let cl1 := if kw_is v "lcc" then Some LambertConformal else cl1 in
          let cl1 := if kw_is v "merc" then Some Mercator else cl1 in
          let cl1 := if kw_is v "utm" then Some UTM else cl1 in
          cl1
        else cl0 in
      {| cl := cl0;
         kw_proj := collect km_proj k v (kw_proj st);
         kw_globe := collect km_globe k v (kw_globe st);
         kw_std := collect km_std k v (kw_std st) |}
  | _ => st
  end.

Definition parse_srs (srs : string) : parser_state N :=
  foldl parse_token {| cl := None; kw_proj := ∅; kw_globe := ∅; kw_std := ∅ |}
        (str_split "+" srs).

(** Everything after the loop. *)
Definition construct (st : parser_state N) : result (projection N) :=
  let globe := if bool_decide (size (kw_globe st) ≠ 0) then Some (kw_globe st) else None in
  kw <- (if bool_decide (size (kw_std st) ≠ 0) then
           lat_1 <- dict_get "lat_1" (kw_std st);
           lat_2 <- dict_get "lat_2" (kw_std st);
           Ok (<["standard_parallels" := KTuple lat_1 lat_2]> (kw_proj st))
         else Ok (kw_proj st));
  c <- read_local "cl" (cl st);
  let kw := if String.eqb (class_name c) "Mercator"
            then delete "false_northing" (delete "false_easting" kw)
            else kw in
  Ok (Class_call c globe kw).

Definition proj_to_cartopy (proj : crs_arg) : result (projection N) :=
  proj <- check_crs proj;
  match proj with
  | None => Raise (AttributeError "is_latlong")
  | Some proj =>
      if is_latlong proj then Ok PlateCarree_call
      else
        let srs0 := srs proj in
        let srs0 := match osr_export with
                    | Some export => export (srs proj)
                    | None => srs0
                    end in
        construct (parse_srs srs0)
  end.

End ProjParser.

(** ** Reference notions the properties are stated against *)

Section SegmenterSpec.
Context {A : Type} `{Coord A} {R : Type} (xy : R → A * A).

(** A sentinel row: a not-a-number in either of the first two columns. *)
Definition is_sentinel (r : R) : bool := isnan (xy r).1 || isnan (xy r).2.

(** The array read from left to right: runs of valid rows, each closed by
    the sentinel row that ends it, and the final run. *)
Fixpoint pieces (array : list R) : list (list R * R) * list R :=
  match array with
  | [] => ([], [])
  | r :: array' =>
      let '(ps, final) := pieces array' in
      if is_sentinel r then (([], r) :: ps, final)
      else match ps with
           | [] => ([], r :: final)
           | (run, s) :: ps' => ((r :: run, s) :: ps', final)
           end
  end.

(** The pieces with their closing sentinel rows, and without them. *)
Definition closed_runs (array : list R) : list (list R) :=
  ((λ p, p.1 ++ [p.2]) <$> (pieces array).1) ++ [(pieces array).2].

Definition valid_runs (array : list R) : list (list R) :=
  (fst <$> (pieces array).1) ++ [(pieces array).2].

(** The drop rule read as removing a valid closing vertex: with a single
    sentinel at index [s], the first emitted part would have one row fewer
    than the [s] valid rows before the sentinel. *)
Definition drops_closing_vertex (array : list R) : Prop :=
  ∀ s, nan_splits xy array = [s] →
       ∃ part, segments xy array !! 0 = Some part ∧ length part + 1 = s.

End SegmenterSpec.

(** [arr[:-1]] on all but the last element of a list of arrays. *)
Fixpoint trim_inner {X : Type} (arrays : list (list X)) : list (list X) :=
  match arrays with
  | [] => []
  | [arr] => [arr]
  | arr :: arrays' => take (length arr - 1) arr :: trim_inner arrays'
  end.

(** Put a row in front of the first array of a list of arrays. *)
Definition cons_head {X : Type} (x : X) (l : list (list X)) : list (list X) :=
  match l with
  | [] => [[x]]
  | h :: t => (x :: h) :: t
  end.

(** ** Concrete inputs *)

(** Three valid rows, a sentinel row, two valid rows. *)
Definition path_C1 : list (float * float) :=
  [(0, 0); (1, 1); (2, 2); (nan, nan); (3, 3); (4, 4)]%float.

(** ** Reference notions for the builders *)

Section BuilderSpec.
Context {A : Type} `{Coord A}.

(** The lines of one array chunk: a LineString for every emitted part with
    at least two rows, in order. *)
Definition array_lines (path : list (A * A * list A)) : list (geometry A) :=
  (λ part, LineString (fst <$> part)) <$> filter (λ part, 2 ≤ length part) (segments fst path).

(** The same for a two-column array. *)
Definition column_lines (array : list (A * A)) : list (geometry A) :=
  LineString <$> filter (λ part, 2 ≤ length part) (segments id array).

(** The collapse rule read on [path_to_geom]: exactly one qualifying
    sub-array would make the result that single LineString. *)
Definition collapses_to_single (path : element A) (multi : bool) : Prop :=
  ∀ line, split_array path ≫= array_lines = [line] →
          path_to_geom path multi true = Ok (RGeom line).

End BuilderSpec.

(** A path element holding one array chunk of two valid rows. *)
Definition path_one_line : element float :=
  {| interface_datatype := "multitabular";
     kdims := ["x"; "y"];
     split_array := [[(0, 0, []); (1, 1, [])]]%float;
     split_geom := [];
     split_columns := [];
     data := [];
     has_holes := false;
     holes := [] |}.

(** A feature dictionary with coordinate columns [x] and [y] and one
    attribute column. *)
Definition feature (xs ys : list float) (name : string) : gmap string (pyval float) :=
  <["x" := VArray xs]> (<["y" := VArray ys]> (<["name" := VAttr name]> ∅)).

Definition columns_element (features : list (gmap string (pyval float))) : element float :=
  {| interface_datatype := "multitabular";
     kdims := ["x"; "y"];
     split_array := [];
     split_geom := [];
     split_columns := features;
     data := [];
     has_holes := false;
     holes := [] |}.

(** One feature whose path is a single point. *)
Definition path_single_point : element float :=
  columns_element [feature [5] [5] "a"]%float.

(** A two-point feature followed by a single-point feature. *)
Definition path_line_then_point : element float :=
  columns_element [feature [0; 1] [0; 1] "a"; feature [5] [5] "b"]%float.

(** ** Reference notions for hole association *)

Section PolygonSpec.
Context {A : Type} `{Coord A}.

(** The geometry of part [j] when the holes of a feature are attached by
    position: [holes_i !! j] and nothing else decides what a polygon gets. *)
Definition positional_poly (skip_invalid : bool) (holes_i : list (list (list (A * A))))
    (jp : nat * list (A * A)) : option (geometry A) :=
  if bool_decide (length jp.2 < 3) then
    if skip_invalid then None else Some (LineString jp.2)
  else Some (Polygon jp.2 (default [] (holes_i !! jp.1))).

Definition positional_polys (skip_invalid : bool) (holes_i : list (list (list (A * A))))
    (array : list (A * A)) : list (geometry A) :=
  omap (positional_poly skip_invalid holes_i) (enumerate (segments id array)).

(** Some part is too short to be a ring and is kept as a line. *)
Definition degraded (skip_invalid : bool) (array : list (A * A)) : bool :=
  negb skip_invalid && bool_decide (Exists (λ part, length part < 3) (segments id array)).

(** The records one feature contributes, given its sub-polygons. *)
Definition feature_records (invalid : bool) (subpolys : list (geometry A))
    (polygon : gmap string (pyval A)) : list (gmap string (pyval A)) :=
  if invalid then (λ sp, <["geometry" := VGeom sp]> polygon) <$> subpolys
  else match subpolys with
       | [] => []
       | [geom] => [<["geometry" := VGeom geom]> polygon]
       | _ => [<["geometry" := VGeom (MultiPolygon subpolys)]> polygon]
       end.

End PolygonSpec.

(** A polygons element with one feature of two rings, the first with one
    hole and the second with none. *)
Definition ring_a : list (float * float) := [(0, 0); (4, 0); (4, 4); (0, 4)]%float.
Definition ring_b : list (float * float) := [(10, 10); (14, 10); (14, 14)]%float.
Definition hole_a : list (float * float) := [(1, 1); (2, 1); (2, 2)]%float.

Definition two_rings : element float :=
  {| interface_datatype := "multitabular";
     kdims := ["x"; "y"];
     split_array := [];
     split_geom := [];
     split_columns :=
       [feature ((ring_a ++ [(nan, nan)%float] ++ ring_b).*1)
                ((ring_a ++ [(nan, nan)%float] ++ ring_b).*2) "a"];
     data := [];
     has_holes := true;
     holes := [[[hole_a]; []]] |}.

(** ** Reference notions for the Array Recoverer *)

Section RecovererSpec.
Context {A : Type} `{Coord A}.

(** The parts' rows with one sentinel row after every part except the
    last, concatenated. *)
Fixpoint sentinel_join (parts : list (list (A * A))) : list (A * A) :=
  match parts with
  | [] => []
  | [part] => part
  | part :: parts' => part ++ [(NaN, NaN)] ++ sentinel_join parts'
  end.

(** How many rows of an array are sentinel rows. *)
Definition count_sentinels (array : list (A * A)) : nat :=
  length (filter (λ r, is_sentinel id r = true) array).

End RecovererSpec.

(** A MultiLineString of three lines. *)
Definition three_lines : geometry float :=
  MultiLineString [LineString [(0, 0); (1, 1)];
                   LineString [(2, 2); (3, 3); (4, 4)];
                   LineString [(5, 5); (6, 6)]]%float.

(** ** A model of the orientation operations

    Rings over integer coordinates, oriented by the sign of twice their
    signed area: [area_orient] reverses an exterior of negative area and a
    hole of positive area, as the geometry library's [orient] does. *)

Definition cross (p q : Z * Z) : Z := (p.1 * q.2 - q.1 * p.2)%Z.

Fixpoint area2 (ring : list (Z * Z)) : Z :=
  match ring with
  | p :: ring' =>
      match ring' with
      | q :: _ => (cross p q + area2 ring')%Z
      | [] => 0%Z
      end
  | [] => 0%Z
  end.

Definition area_is_ccw (g : geometry Z) : bool := (0 <? area2 (coords_of g))%Z.

Definition area_orient (g : geometry Z) : geometry Z :=
  match g with
  | Polygon shell holes =>
      Polygon (if (0 <=? area2 shell)%Z then shell else reverse shell)
              ((λ h, if (area2 h <=? 0)%Z then h else reverse h) <$> holes)
  | _ => g
  end.

(** A square wound clockwise, with a hole wound counter-clockwise. *)
Definition cw_square : geometry Z :=
  Polygon [(0, 0); (0, 4); (4, 4); (4, 0); (0, 0)]%Z
          [[(1, 1); (2, 1); (2, 2); (1, 2); (1, 1)]%Z].

(** ** Reference notions for the Extent Reprojector *)

(** The error rule read for every failure: whatever [project_geometry]
    raises, [project_extents] would raise the descriptive error. *)
Definition reraises_descriptive {F : Type} `{Numeric F} (lib : GeoLib F)
    (extents : F * F * F * F) (src_proj dest_proj : CRS F) (tol : F) : Prop :=
  ∀ box e,
    clip_extents extents src_proj tol = Ok box →
    project_geometry lib dest_proj (geom_in_src_proj lib src_proj box) src_proj = Raise e →
    project_extents lib extents src_proj dest_proj tol
    = Raise (projection_error (crs_name src_proj) (crs_name dest_proj)).

(** Component-wise equality of rational boxes. *)
Definition box_eq (p q : Q * Q * Q * Q) : Prop :=
  (p.1.1.1 == q.1.1.1 ∧ p.1.1.2 == q.1.1.2 ∧ p.1.2 == q.1.2 ∧ p.2 == q.2)%Q.

(** The narrowing rule read for every box: the result of an identity
    reprojection is the box moved in by [tol] on every side, and no side of
    it lies outside the input. *)
Definition narrowed_by_tol (lib : GeoLib Q) (src_proj : CRS Q) (extents : Q * Q * Q * Q)
    (tol : Q) : Prop :=
  let '(x1, y1, x2, y2) := extents in
  ∃ out, project_extents lib extents src_proj src_proj tol = Ok out
         ∧ box_eq out (x1 + tol, y1 + tol, x2 - tol, y2 - tol)%Q
         ∧ (x1 <= out.1.1.1 ∧ y1 <= out.1.1.2 ∧ out.1.2 <= x2 ∧ out.2 <= y2)%Q.

(** ** A model of the geometry and projection libraries

    Boundaries are axis-aligned rectangles: the bounds of a geometry are the
    extremes of its coordinates, intersecting with a boundary clamps every
    vertex into the boundary's bounds, and a buffer moves the bounds. *)

Definition box_bounds (g : geometry Q) : Q * Q * Q * Q :=
  match coords_of g with
  | [] => (0, 0, 0, 0)%Q
  | p :: ps =>
      foldl (λ b q, (fmin b.1.1.1 q.1, fmin b.1.1.2 q.2, fmax b.1.2 q.1, fmax b.2 q.2))
            (p.1, p.2, p.1, p.2) ps
  end.

Definition clamp (lo hi x : Q) : Q := if Qltb x lo then lo else if Qltb hi x then hi else x.

Definition box_intersection (b r : geometry Q) : geometry Q :=
  let '(lx, ly, hx, hy) := box_bounds b in
  Polygon ((λ p, (clamp lx hx p.1, clamp ly hy p.2)) <$> coords_of r) [].

Definition box_buffer (g : geometry Q) (distance : Q) : geometry Q :=
  let '(lx, ly, hx, hy) := box_bounds g in
  domain_polygon (lx - distance)%Q (ly - distance)%Q (hx + distance)%Q (hy + distance)%Q.

Definition box_lib (project : CRS Q → geometry Q → CRS Q → result (geometry Q)) : GeoLib Q :=
  {| crs_ne := λ a b, negb (String.eqb (crs_name a) (crs_name b));
     buffer := box_buffer;
     intersection := box_intersection;
     bounds := box_bounds;
     project_geometry := project |}.

(** The equirectangular projection: cylindrical, longitudes in [-180, 180]. *)
Definition plate_carree : CRS Q :=
  {| crs_name := "PlateCarree";
     x_limits := (-180, 180)%Q;
     y_limits := (-90, 90)%Q;
     is_cylindrical := true;
     boundary := LineString [(-180, -90); (180, -90); (180, 90); (-180, 90); (-180, -90)]%Q;
     threshold := (1 # 2)%Q |}.

(** The British national grid: not cylindrical, a rectangle in metres. *)
Definition osgb : CRS Q :=
  {| crs_name := "OSGB";
     x_limits := (0, 700000)%Q;
     y_limits := (0, 1300000)%Q;
     is_cylindrical := false;
     boundary := LineString [(0, 0); (0, 1300000); (700000, 1300000); (700000, 0); (0, 0)]%Q;
     threshold := 10000%Q |}.

Definition project_unsupported (dest : CRS Q) (g : geometry Q) (src : CRS Q)
  : result (geometry Q) := Raise (ValueError "Unsupported geometry type").

Definition project_topology (dest : CRS Q) (g : geometry Q) (src : CRS Q)
  : result (geometry Q) :=
  Raise (OtherError "TopologicalError" "The operation could not be performed").

Definition project_same (dest : CRS Q) (g : geometry Q) (src : CRS Q)
  : result (geometry Q) := Ok g.

(** A rectangle inside the bounds of the equirectangular boundary. *)
Definition inside_plate_carree (box : Q * Q * Q * Q) : Prop :=
  (-180 <= box.1.1.1 ∧ -90 <= box.1.1.2 ∧ box.1.2 <= 180 ∧ box.2 <= 90)%Q.

(** A box half a tolerance wide, well inside the national grid. *)
Definition narrow_box : Q * Q * Q * Q :=
  (100, 100, 200000001 # 2000000, 200000001 # 2000000)%Q.

(** ** A model of [float] on decimal integer literals

    Enough of Python's [float(text)] to run the parser on plain integers:
    an optional sign and digits; anything else is rejected. *)

Fixpoint digits_value (acc : Z) (s : string) : option Z :=
  match s with
  | EmptyString => Some acc
  | String c s' =>
      let n := nat_of_ascii c in
      if (48 <=? n) && (n <=? 57) then digits_value (10 * acc + Z.of_nat (n - 48)) s'
      else None
  end.

Definition float_of_digits (s : string) : option float :=
  match s with
  | EmptyString => None
  | String "-" (String c s') => (λ z, float_of_Z (- z)) <$> digits_value 0 (String c s')
  | String "+" (String c s') => float_of_Z <$> digits_value 0 (String c s')
  | _ => float_of_Z <$> digits_value 0 s
  end.

(** The proj4 string of the Mercator scenario. *)
Definition merc_srs : string := "+proj=merc +x_0=500000 +y_0=100 +lat_0=0".

Definition no_pyproj (crs : crs_arg) : result Proj := Raise (RuntimeError "not a projection").

(** ** [is_multi_geometry] *)

(** [sub in s] *)
Fixpoint str_contains (sub s : string) : bool :=
  String.prefix sub s
  || match s with
     | EmptyString => false
     | String _ s' => str_contains sub s'
     end.

Definition is_multi_geometry {A : Type} (geom : geometry A) : bool :=
  str_contains "Multi" (geom_type geom) || str_contains "Collection" (geom_type geom).

(** ** Reference notions for the further properties *)

Section ExtraSpec.
Context {A : Type} `{Coord A}.

(** The geometry a path feature stores for its valid lines. *)
Definition collapsed (lines : list (geometry A)) : geometry A :=
  match lines with
  | [line] => line
  | _ => MultiLineString lines
  end.

(** A columnar element with a single feature: the two coordinate columns of
    an array beside the attribute columns. *)
Definition array_feature (xname yname : string) (attrs : gmap string (pyval A))
    (array : list (A * A)) : gmap string (pyval A) :=
  <[xname := VArray array.*1]> (<[yname := VArray array.*2]> attrs).

Definition columns_of (xname yname : string) (features : list (gmap string (pyval A)))
  : element A :=
  {| interface_datatype := "multitabular";
     kdims := [xname; yname];
     split_array := [];
     split_geom := [];
     split_columns := features;
     data := [];
     has_holes := false;
     holes := [] |}.

(** The polygons of one array chunk under the minimum-vertex policy. *)
Definition array_polys (skip_invalid : bool) (path : list (A * A * list A))
  : list (geometry A) :=
  omap (λ part, if bool_decide (length part < 3) then
                  if skip_invalid then None else Some (LineString (fst <$> part))
                else Some (Polygon (fst <$> part) []))
       (segments fst path).

End ExtraSpec.

(** ** Reference notions for the assemblers *)

Section AssemblerSpec.
Context {A : Type} `{Coord A}.

(** The records of a run of path features when the geometry of a feature
    without a valid line is the one carried over from the features before. *)
Fixpoint carried (geom : geometry A) (fs : list (list (A * A) * gmap string (pyval A)))
  : list (gmap string (pyval A)) :=
  match fs with
  | [] => []
  | f :: fs' =>
      let geom' := match column_lines f.1 with
                   | [] => geom
                   | lines => collapsed lines
                   end in
      <["geometry" := VGeom geom']> f.2 :: carried geom' fs'
  end.

(** A record made from a feature: its columns without the two coordinate
    columns, and a geometry. *)
Definition record_of (xname yname : string) (d rec : gmap string (pyval A)) : Prop :=
  ∃ geom, rec = <["geometry" := VGeom geom]> (delete yname (delete xname d)).

End AssemblerSpec.

(** ** Reference notions for the Proj-String Parser *)

(** A token of a proj4 string read as [key=value], both stripped: the
    tokens the loop of [proj_to_cartopy] does not skip. *)
Definition token_pair (s : string) : option (string * string) :=
  match str_split "=" s with
  | [k; v] => Some (str_strip k, str_strip v)
  | _ => None
  end.

Definition srs_tokens (srs : string) : list (string * string) :=
  omap token_pair (str_split "+" srs).

(** The string the loop runs over: the Proj object's own, or the one the
    round trip through GDAL gives. *)
Definition exported_srs (osr_export : option (string → string)) (p : Proj) : string :=
  match osr_export with
  | Some export => export (srs p)
  | None => srs p
  end.

(** The proj4 code that resolves each class. *)
Definition proj_code (c : proj_class) : string :=
  match c with
  | TransverseMercator => "tmerc"
  | LambertConformal => "lcc"
  | Mercator => "merc"
  | UTM => "utm"
  end.

(** The keyword names a projection class, and a globe, can be called with. *)
Definition proj_keywords : list string :=
  ["central_longitude"; "central_latitude"; "false_easting"; "false_northing";
   "scale_factor"; "zone"; "standard_parallels"].

Definition globe_keywords : list string := ["semimajor_axis"; "semiminor_axis"].

(** A Lambert conformal string with one standard parallel only. *)
Definition lcc_srs : string := "+proj=lcc +lat_1=30 +lon_0=10".

(** ** [process_crs] *)

(** [c.lower()] on one character (code points below 256). *)
Definition ascii_lower (c : ascii) : ascii :=
  let n := nat_of_ascii c in
  if (65 <=? n) && (n <=? 90) || (192 <=? n) && (n <=? 222) && negb (n =? 215)
  then ascii_of_nat (n + 32)
  else c.

(** [s.lower()] *)
Fixpoint str_lower (s : string) : string :=
  match s with
  | EmptyString => EmptyString
  | String c s' => String (ascii_lower c) (str_lower s')
  end.

(** [s[n:]] *)
Fixpoint str_drop (n : nat) (s : string) : string :=
  match n, s with
  | S n', String _ s' => str_drop n' s'
  | _, _ => s
  end.

(** What [process_crs] is called with: None, a string, an integer, a
    pyproj.Proj, a cartopy CRS object, or anything else. *)
Inductive crs_spec (C : Type) : Type :=
| SNone
| SStr (s : string)
| SInt (code : Z)
| SProj (p : Proj)
| SCRS (crs : C)
| SOther.
Arguments SNone {C}.
Arguments SStr {C} s.
Arguments SInt {C} code.
Arguments SProj {C} p.
Arguments SCRS {C} crs.
Arguments SOther {C}.

(** What it returns: a projection call it made itself, or a CRS object it
    was given or got from [ccrs.epsg]. *)
Inductive processed (N C : Type) : Type :=
| Constructed (p : projection N)
| Object (crs : C).
Arguments Constructed {N C} p.
Arguments Object {N C} crs.

Definition epsg_error : exn :=
  ValueError "Could not parse EPSG code as CRS, must be of the format 'EPSG: {code}.'".

Definition proj4_error : exn :=
  ValueError "Could not parse EPSG code as CRS, must be of the format 'proj4: {proj4 string}.'".

Definition crs_type_error : exn :=
  ValueError "Projection must be defined as a EPSG code, proj4 string, cartopy CRS or pyproj.Proj.".

Section ProcessCRS.
Context {N C : Type}.
Variable py_float : string → option N.
Variable pyproj_Proj : crs_arg → result Proj.
Variable pyproj_Proj_init : crs_arg → result Proj.
Variable osr_export : option (string → string).
(** [ccrs.epsg(code)], for a string or an integer code. *)
Variable ccrs_epsg : string + Z → result C.

(** The imports at the head of the function are taken to succeed. *)
Definition process_crs (crs : crs_spec C) : result (processed N C) :=
  match crs with
  | SNone => Ok (Constructed PlateCarree_call)
  | SStr s =>
      if String.prefix "epsg" (str_lower s) then
        match ccrs_epsg (inl (str_rstrip (str_lstrip (str_drop 5 s)))) with
        | Ok crs => Ok (Object crs)
        | Raise _ => Raise epsg_error
        end
      else
        match proj_to_cartopy py_float pyproj_Proj pyproj_Proj_init osr_export (AStr s) with
        | Ok p => Ok (Constructed p)
        | Raise _ => Raise proj4_error
        end
  | SInt code => crs <- ccrs_epsg (inr code); Ok (Object crs)
  | SProj p =>
      match proj_to_cartopy py_float pyproj_Proj pyproj_Proj_init osr_export (AProj p) with
      | Ok p => Ok (Constructed p)
      | Raise _ => Raise proj4_error
      end
  | SCRS crs => Ok (Object crs)
  | SOther => Raise crs_type_error
  end.

End ProcessCRS.

(** A registry that knows one code, under its number and under its text. *)
Definition one_epsg (code : string + Z) : result string :=
  match code with
  | inl "4326" => Ok "WGS 84"
  | inr 4326%Z => Ok "WGS 84"
  | _ => Raise (OtherError "HTTPError" "404")
  end.

(** ** Reference notions for geometry input *)

Section GeometryInputSpec.
Context {A : Type}.

(** The lines one geometry of a geometry-backed Path element stands for:
    the exterior ring of every polygon, the lines of a MultiLineString, and
    any other geometry itself. *)
Definition outlines (g : geometry A) : list (geometry A) :=
  match g with
  | MultiPolygon gs => LinearRing <$> (coords_of <$> gs)
  | Polygon shell _ => [LinearRing shell]
  | MultiLineString gs => gs
  | _ => [g]
  end.

(** A MultiPolygon holds polygons. *)
Definition polygon_parts (g : geometry A) : Prop :=
  match g with
  | MultiPolygon gs => Forall (λ p, has_exterior p = true) gs
  | _ => True
  end.

(** The polygons one geometry of a geometry-backed Polygons element stands
    for: the hull of every line, the polygons of a MultiPolygon, and any
    other geometry itself. *)
Definition hulls (convex_hull : geometry A → geometry A) (g : geometry A)
  : list (geometry A) :=
  match g with
  | MultiLineString gs => convex_hull <$> gs
  | MultiPolygon gs => gs
  | LineString _ => [convex_hull g]
  | _ => [g]
  end.

End GeometryInputSpec.

(** A geometry-backed element. *)
Definition geoms_element (gs : list (geometry float)) : element float :=
  {| interface_datatype := "geodataframe";
     kdims := ["x"; "y"];
     split_array := [];
     split_geom := gs;
     split_columns := [];
     data := [];
     has_holes := false;
     holes := [] |}.

(** The feature of [two_rings] with no hole list for its second ring. *)
Definition two_rings_one_list : element float :=
  {| interface_datatype := "multitabular";
     kdims := ["x"; "y"];
     split_array := [];
     split_geom := [];
     split_columns := split_columns two_rings;
     data := [];
     has_holes := true;
     holes := [[[hole_a]]] |}.

(** ** [geo_mesh] *)

(** The value array of a mesh: two-dimensional for one value dimension,
    with a third axis when several are stacked. *)
Inductive mesh_values (F : Type) : Type :=
| Flat (rows : list (list F))
| Stacked (rows : list (list (list F))).
Arguments Flat {F} rows.
Arguments Stacked {F} rows.

(** The gridded element as far as [geo_mesh] reads it:
    [len(element.vdims)], [element.dimension_values(i, False, False)] for
    the two coordinate dimensions and for the value dimensions,
    [element.range(0)] and whether [element.crs] is cylindrical. *)
Record grid (F : Type) : Type := {
  vdims : nat;
  coordinate_values : nat → result (list F);
  dimension_values : nat → result (list (list F));
  range_0 : F * F;
  crs_cylindrical : bool
}.
Arguments vdims {F} g.
Arguments coordinate_values {F} g i.
Arguments dimension_values {F} g i.
Arguments range_0 {F} g.
Arguments crs_cylindrical {F} g.

Section GeoMesh.
Context {F : Type} `{Numeric F}.
(** [a == b] on numbers, and numpy's [dstack]. *)
Variable feqb : F → F → bool.
Variable np_dstack : list (list (list F)) → result (list (list (list F))).

(** [np.ma.concatenate([zs, zs[:, 0:1]], axis=1)] *)
Definition append_first_column {X : Type} (rows : list (list X)) : list (list X) :=
  (λ row, row ++ take 1 row) <$> rows.

Definition geo_mesh (element : grid F) : result (list F * list F * mesh_values F) :=
  '(xs, ys, zs) <- (if bool_decide (1 < vdims element) then
                      xs <- coordinate_values element 0;
                      ys <- coordinate_values element 1;
                      arrays <- foldlM (λ acc i, a <- dimension_values element i; Ok (acc ++ [a]))
                                  [] (seq 2 (vdims element));
                      zs <- np_dstack arrays;
                      Ok (xs, ys, Stacked zs)
                    else
                      xs <- coordinate_values element 0;
                      ys <- coordinate_values element 1;
                      zs <- dimension_values element 2;
                      Ok (xs, ys, Flat zs));
  let '(lon0, lon1) := range_0 element in
  if crs_cylindrical element && feqb (fsub lon1 lon0) (of_Z 360) then
    let xs := xs ++ ((λ x, fadd x (of_Z 360)) <$> take 1 xs) in
    let zs := match zs with
              | Flat rows => Flat (append_first_column rows)
              | Stacked rows => Stacked (append_first_column rows)
              end in
    Ok (xs, ys, zs)
  else Ok (xs, ys, zs).

(** Whether the mesh is taken to wrap around the globe. *)
Definition wraps (element : grid F) : bool :=
  crs_cylindrical element && feqb (fsub (range_0 element).2 (range_0 element).1) (of_Z 360).

End GeoMesh.

(** How many cells each row of a value array has. *)
Definition row_lengths {F : Type} (zs : mesh_values F) : list nat :=
  match zs with
  | Flat rows => length <$> rows
  | Stacked rows => length <$> rows
  end.

(** A global grid of three longitudes and two latitudes. *)
Definition global_grid : grid Q :=
  {| vdims := 1;
     coordinate_values := λ i, match i with
                               | 0 => Ok [-180; -60; 60]%Q
                               | _ => Ok [-45; 45]%Q
                               end;
     dimension_values := λ _, Ok [[1; 2; 3]; [4; 5; 6]]%Q;
     range_0 := (-180, 180)%Q;
     crs_cylindrical := true |}.

(** * Properties *)

(** ** Loops and the result monad *)

Lemma foldl_append {S X : Type} (f : X → option S) (acc : list S) (l : list X) :
  foldl (λ acc x, match f x with Some y => acc ++ [y] | None => acc end) acc l
  = acc ++ omap f l.
Proof.
  revert acc. induction l as [|x l IH]; intros acc; simpl.
  - by rewrite app_nil_r.
  - rewrite IH. destruct (f x); simpl; [|done]. by rewrite <- app_assoc.
Qed.

Lemma enumerate_from_length {X : Type} (i : nat) (l : list X) :
  length (enumerate_from i l) = length l.
Proof. revert i. induction l; intros; simpl; auto. Qed.

Lemma enumerate_from_lookup {X : Type} (i j : nat) (l : list X) :
  enumerate_from i l !! j = (λ x, (i + j, x)) <$> l !! j.
Proof.
  revert i j. induction l as [|x l IH]; intros i [|j]; simpl; try done.
  - by rewrite Nat.add_0_r.
  - rewrite IH. by replace (S i + j) with (i + S j) by lia.
Qed.

(** ** Array Segmenter *)

Section SegmenterFacts.
Context {A : Type} `{Coord A} {R : Type} (xy : R → A * A).

Lemma nan_sum_sentinel (r : R) :
  bool_decide (nan_sum xy r = 0) = negb (is_sentinel xy r).
Proof.
  unfold nan_sum, is_sentinel.
  destruct (isnan (xy r).1), (isnan (xy r).2); reflexivity.
Qed.

Lemma np_where_from_S (i : nat) (c : list nat) :
  np_where_from (S i) c = S <$> np_where_from i c.
Proof.
  revert i. induction c as [|n c IH]; intros i; simpl; [done|].
  case_bool_decide; simpl; by rewrite IH.
Qed.

Lemma nan_splits_cons (r : R) (array : list R) :
  nan_splits xy (r :: array)
  = if is_sentinel xy r then 0 :: (S <$> nan_splits xy array)
    else S <$> nan_splits xy array.
Proof.
  unfold nan_splits, np_where. simpl. rewrite nan_sum_sentinel, np_where_from_S.
  by destruct (is_sentinel xy r).
Qed.

Lemma np_split_from_cons {X : Type} (st : nat) (x : X) (ary : list X) (indices : list nat) :
  np_split_from (S st) (x :: ary) (S <$> indices) = np_split_from st ary indices.
Proof.
  revert st. induction indices as [|i indices IH]; intros st; simpl.
  - done.
  - unfold slice at 1 2. simpl. by rewrite IH.
Qed.

Lemma np_split_head {X : Type} (x : X) (ary : list X) (indices : list nat) :
  np_split_from 0 (x :: ary) (S <$> indices) = cons_head x (np_split_from 0 ary indices).
Proof.
  destruct indices as [|i indices]; simpl.
  - unfold slice. simpl. by rewrite !Nat.sub_0_r.
  - unfold slice. simpl. rewrite Nat.sub_0_r. f_equal.
    apply np_split_from_cons.
Qed.

Lemma split_at_nans_np_split (array : list R) :
  split_at_nans xy array = np_split array (S <$> nan_splits xy array).
Proof.
  unfold split_at_nans. case_bool_decide as Hlen; [done|].
  destruct (nan_splits xy array); simpl in *; [|lia].
  unfold np_split. simpl. unfold slice.
  by rewrite Nat.sub_0_r, drop_0, firstn_all.
Qed.

Lemma split_at_nans_closed_runs (array : list R) :
  split_at_nans xy array = closed_runs xy array.
Proof.
  rewrite split_at_nans_np_split. unfold np_split, closed_runs.
  induction array as [|r array IH].
  - reflexivity.
  - rewrite nan_splits_cons. simpl pieces.
    destruct (pieces xy array) as [ps final] eqn:Hp. simpl in IH.
    destruct (is_sentinel xy r).
    + simpl. unfold slice at 1. simpl. f_equal.
      rewrite np_split_from_cons. exact IH.
    + rewrite np_split_head, IH. by destruct ps as [|[run s] ps].
Qed.

End SegmenterFacts.

Section SegmenterDrop.
Context {A : Type} `{Coord A} {R : Type} (xy : R → A * A).

Lemma enumerate_trim {X : Type} (arrays : list (list X)) (i n : nat) :
  n = i + length arrays →
  (λ ja : nat * list X,
     if bool_decide (ja.1 ≠ n - 1) then take (length ja.2 - 1) ja.2 else ja.2)
    <$> enumerate_from i arrays
  = trim_inner arrays.
Proof.
  revert i. induction arrays as [|arr arrays IH]; intros i Hn; [done|].
  simpl in Hn. simpl enumerate_from. rewrite fmap_cons, IH by lia.
  destruct arrays as [|arr' arrays]; simpl in *.
  - rewrite bool_decide_false by lia. done.
  - rewrite bool_decide_true by lia. done.
Qed.

Lemma segments_trim (array : list R) :
  segments xy array = trim_inner (split_at_nans xy array).
Proof. unfold segments, enumerate, drop_nan. by apply enumerate_trim. Qed.

Lemma trim_closed (ps : list (list R * R)) (final : list R) :
  trim_inner (((λ p, p.1 ++ [p.2]) <$> ps) ++ [final]) = (fst <$> ps) ++ [final].
Proof.
  induction ps as [|[run s] ps IH]; [done|].
  rewrite !fmap_cons, <- !app_comm_cons, <- IH. simpl.
  destruct ((((λ p : list R * R, p.1 ++ [p.2]) <$> ps) ++ [final])) eqn:E.
  - by destruct ps.
  - rewrite length_app. simpl. rewrite Nat.add_sub, take_app_length. done.
Qed.

Lemma segments_valid_runs (array : list R) :
  segments xy array = valid_runs xy array.
Proof. rewrite segments_trim, split_at_nans_closed_runs. apply trim_closed. Qed.

Lemma pieces_rows (array : list R) :
  Forall (λ p, Forall (λ r, is_sentinel xy r = false) p.1 ∧ is_sentinel xy p.2 = true)
         (pieces xy array).1
  ∧ Forall (λ r, is_sentinel xy r = false) (pieces xy array).2.
Proof.
  induction array as [|r array [IHp IHf]]; simpl.
  - by split.
  - destruct (pieces xy array) as [ps final]. simpl in *.
    destruct (is_sentinel xy r) eqn:Hr; simpl.
    + split; [|done]. constructor; [|done]. by split.
    + destruct ps as [|[run s] ps]; simpl.
      * split; [done|]. by constructor.
      * split; [|done]. inversion IHp as [|? ? [Hrun Hs] Hps]; subst.
        constructor; [|done]. split; [by constructor|done].
Qed.

Lemma closed_runs_concat (array : list R) :
  concat (closed_runs xy array) = array.
Proof.
  unfold closed_runs. induction array as [|r array IH]; [done|]. simpl pieces.
  destruct (pieces xy array) as [ps final]. cbn [fst snd] in *.
  destruct (is_sentinel xy r); cbn [fst snd].
  - rewrite fmap_cons. cbn. by rewrite IH.
  - destruct ps as [|[run s] ps]; cbn [fst snd].
    + cbn in *. by rewrite IH.
    + rewrite fmap_cons in *. cbn in *. by rewrite IH.
Qed.

Lemma valid_runs_concat (array : list R) :
  concat (valid_runs xy array) = filter (λ r, is_sentinel xy r = false) array.
Proof.
  unfold valid_runs. induction array as [|r array IH]; [done|]. simpl pieces.
  destruct (pieces xy array) as [ps final]. cbn [fst snd] in *.
  destruct (is_sentinel xy r) eqn:Hr; cbn [fst snd].
  - rewrite filter_cons_False by congruence. rewrite fmap_cons. cbn. done.
  - rewrite filter_cons_True by done.
    destruct ps as [|[run s] ps]; cbn [fst snd].
    + cbn in *. by rewrite IH.
    + rewrite fmap_cons in *. cbn in *. by rewrite IH.
Qed.

Lemma nan_splits_lt (array : list R) :
  Forall (λ i, i < length array) (nan_splits xy array).
Proof.
  induction array as [|r array IH]; [by constructor|].
  rewrite nan_splits_cons.
  assert (Forall (λ i, i < length (r :: array)) (S <$> nan_splits xy array)) as HS.
  { rewrite Forall_fmap. eapply Forall_impl; [exact IH|]. simpl. intros; lia. }
  destruct (is_sentinel xy r); [|done]. constructor; [simpl; lia|done].
Qed.

(** C1 (amended): every sub-array of the split except the last ends with
    the sentinel row it was cut after, and the final-row drop removes exactly
    that sentinel row: the part that stays is the whole run of valid rows.
    The last sub-array holds valid rows only and is kept whole.  Together the
    sub-arrays are the input, and the emitted parts are its valid rows in
    order, so no valid vertex is dropped.  With a single sentinel at index
    [s], the first emitted part is the [s] valid rows before it. *)
Theorem segmenter_drops_sentinel_row (array : list R) :
  let arrays := split_at_nans xy array in
  (∀ j sub, arrays !! j = Some sub → j ≠ length arrays - 1 →
     ∃ run s, sub = run ++ [s] ∧ is_sentinel xy s = true
              ∧ Forall (λ r, is_sentinel xy r = false) run
              ∧ drop_nan arrays j sub = run)
  ∧ (∀ sub, arrays !! (length arrays - 1) = Some sub →
       Forall (λ r, is_sentinel xy r = false) sub
       ∧ drop_nan arrays (length arrays - 1) sub = sub)
  ∧ concat arrays = array
  ∧ concat (segments xy array) = filter (λ r, is_sentinel xy r = false) array
  ∧ (∀ s, nan_splits xy array = [s] →
       segments xy array !! 0 = Some (take s array)
       ∧ length (take s array) = s
       ∧ Forall (λ r, is_sentinel xy r = false) (take s array)).
Proof.
  intros arrays.
  assert (arrays = closed_runs xy array) as Harr by apply split_at_nans_closed_runs.
  destruct (pieces_rows array) as [Hps Hfinal].
  assert (length arrays = S (length (pieces xy array).1)) as Hlen.
  { rewrite Harr. unfold closed_runs. rewrite length_app, length_fmap. simpl. lia. }
  split; [|split; [|split; [|split]]].
  - intros j sub Hj Hne.
    assert (j < length (pieces xy array).1) as Hlt.
    { apply lookup_lt_Some in Hj. lia. }
    rewrite Harr in Hj. unfold closed_runs in Hj.
    rewrite lookup_app_l in Hj by (by rewrite length_fmap).
    rewrite list_lookup_fmap in Hj.
    destruct ((pieces xy array).1 !! j) as [[run s]|] eqn:Hp; simpl in Hj; [|done].
    injection Hj as <-. exists run, s.
    rewrite Forall_lookup in Hps. destruct (Hps _ _ Hp) as [Hrun Hs]. simpl in *.
    repeat split; try done.
    unfold drop_nan. rewrite bool_decide_true by done.
    rewrite length_app. simpl. by rewrite Nat.add_sub, take_app_length.
  - intros sub Hsub. rewrite Hlen in Hsub. simpl in Hsub. rewrite Nat.sub_0_r in Hsub.
    rewrite Harr in Hsub. unfold closed_runs in Hsub.
    rewrite lookup_app_r in Hsub by (by rewrite length_fmap).
    rewrite length_fmap, Nat.sub_diag in Hsub. injection Hsub as <-.
    split; [done|]. unfold drop_nan. by rewrite bool_decide_false by tauto.
  - rewrite Harr. apply closed_runs_concat.
  - rewrite segments_valid_runs. apply valid_runs_concat.
  - intros s Hs.
    pose proof (nan_splits_lt array) as Hlt. rewrite Hs in Hlt.
    apply Forall_cons_1 in Hlt as [Hlt _].
    assert (segments xy array !! 0 = Some (take s array)) as Hseg.
    { rewrite segments_trim, split_at_nans_np_split, Hs. unfold np_split. simpl.
      unfold slice. rewrite Nat.sub_0_r, drop_0, length_take.
      rewrite Nat.min_l by lia. simpl. rewrite Nat.sub_0_r.
      rewrite take_take. f_equal. f_equal. lia. }
    split; [done|]. split; [rewrite length_take; lia|].
    rewrite segments_valid_runs in Hseg. unfold valid_runs in Hseg.
    destruct (pieces xy array).1 as [|[run s'] ps] eqn:Hp; simpl in Hseg.
    + injection Hseg as <-. done.
    + injection Hseg as <-. inversion Hps as [|? ? [Hrun _] _]; subst. done.
Qed.
End SegmenterDrop.

(** C1 (as stated) fails: six rows with a sentinel at index 3; the first
    emitted part keeps all three valid rows before the sentinel. *)
Lemma segmenter_keeps_closing_vertex : ¬ drops_closing_vertex id path_C1.
Proof.
  intros Hclaim. destruct (Hclaim 3) as (part & Hpart & Hlen); [reflexivity|].
  vm_compute in Hpart. injection Hpart as <-. simpl in Hlen. lia.
Qed.

(** ** Line Builder *)

Lemma foldl_append_ext {S X : Type} (step : list S → X → list S) (f : X → option S) :
  (∀ acc x, step acc x = match f x with Some y => acc ++ [y] | None => acc end) →
  ∀ acc l, foldl step acc l = acc ++ omap f l.
Proof.
  intros Hstep acc l. rewrite <- foldl_append. revert acc.
  induction l as [|x l IH]; intros acc; simpl; [done|]. by rewrite Hstep, IH.
Qed.

Lemma foldl_extend {S X : Type} (f : X → list S) (acc : list S) (l : list X) :
  foldl (λ acc x, acc ++ f x) acc l = acc ++ (l ≫= f).
Proof.
  revert acc. induction l as [|x l IH]; intros acc; simpl.
  - by rewrite app_nil_r.
  - by rewrite IH, app_assoc.
Qed.

Section LineBuilder.
Context {A : Type} `{Coord A}.

Lemma omap_min_length {X Y : Type} (n : nat) (mk : list X → Y) (parts : list (list X)) :
  omap (λ part, if bool_decide (length part < n) then None else Some (mk part)) parts
  = mk <$> filter (λ part, n ≤ length part) parts.
Proof.
  induction parts as [|part parts IH]; [done|]. csimpl.
  case_bool_decide.
  - rewrite filter_cons_False by lia. done.
  - rewrite filter_cons_True by lia. csimpl. by rewrite IH.
Qed.

Lemma path_to_geom_array_lines (lines : list (geometry A)) (path : list (A * A * list A)) :
  path_to_geom_array lines path = lines ++ array_lines path.
Proof.
  unfold path_to_geom_array, array_lines, segments.
  rewrite (foldl_append_ext _
    (λ ip, (λ part, if bool_decide (length part < 2) then None
                    else Some (LineString (fst <$> part)))
             (drop_nan (split_at_nans fst path) ip.1 ip.2))).
  - f_equal. rewrite <- omap_min_length.
    induction (enumerate (split_at_nans fst path)) as [|ip l IH]; [done|].
    csimpl. rewrite IH. done.
  - intros acc ip. unfold path_to_geom_part. simpl. by case_bool_decide.
Qed.

Lemma path_to_geom_lines (path : element A) (multi skip_invalid : bool) :
  interface_datatype path ≠ "geodataframe" →
  path_to_geom path multi skip_invalid
  = Ok (if multi then RGeom (MultiLineString (split_array path ≫= array_lines))
        else RList (split_array path ≫= array_lines)).
Proof.
  intros Hdt. unfold path_to_geom.
  destruct (String.eqb_spec (interface_datatype path) "geodataframe"); [done|]. simpl.
  assert (foldl path_to_geom_array [] (split_array path)
          = split_array path ≫= array_lines) as ->; [|done].
  rewrite <- (app_nil_l (split_array path ≫= array_lines)).
  rewrite <- foldl_extend. generalize (@nil (geometry A)).
  induction (split_array path) as [|chunk chunks IH]; intros acc; simpl; [done|].
  by rewrite path_to_geom_array_lines, IH.
Qed.

(** C3 (amended): for array input [path_to_geom] never raises.  Every
    emitted part with at least two rows becomes a LineString, in order over
    all chunks; with [multi=True] the result is the MultiLineString of all
    of them, whether there are several, one or none (an empty
    MultiLineString), and with [multi=False] it is the plain list of them.
    A single qualifying line is never returned bare. *)
Theorem path_to_geom_array_input (path : element A) (multi skip_invalid : bool) :
  interface_datatype path ≠ "geodataframe" →
  let lines := split_array path ≫= array_lines in
  path_to_geom path multi skip_invalid
  = Ok (if multi then RGeom (MultiLineString lines) else RList lines)
  ∧ (lines = [] → path_to_geom path true skip_invalid = Ok (RGeom (MultiLineString [])))
  ∧ (∀ line, lines = [line] →
       path_to_geom path true skip_invalid = Ok (RGeom (MultiLineString [line]))
       ∧ path_to_geom path false skip_invalid = Ok (RList [line])).
Proof.
  intros Hdt lines. split; [by apply path_to_geom_lines|]. split.
  - intros Hnil. rewrite path_to_geom_lines by done. fold lines. by rewrite Hnil.
  - intros line Hline. rewrite !path_to_geom_lines by done. fold lines. by rewrite Hline.
Qed.

End LineBuilder.

(** C3 witness. *)
Lemma path_to_geom_array_input_witness :
  path_to_geom path_one_line true true
  = Ok (RGeom (MultiLineString [LineString [(0, 0); (1, 1)]%float])).
Proof.
  destruct (path_to_geom_array_input path_one_line true true) as (Hres & _ & _).
  - vm_compute. discriminate.
  - exact Hres.
Defined.

(** C3 (as stated) fails: one qualifying sub-array, and the result is a
    MultiLineString (or a list) holding the line, not the line itself. *)
Lemma path_to_geom_keeps_container :
  ¬ collapses_to_single path_one_line true ∧ ¬ collapses_to_single path_one_line false.
Proof.
  split; intros Hclaim.
  - specialize (Hclaim (LineString [(0, 0); (1, 1)]%float) eq_refl). vm_compute in Hclaim. discriminate.
  - specialize (Hclaim (LineString [(0, 0); (1, 1)]%float) eq_refl). vm_compute in Hclaim. discriminate.
Qed.

(** ** Geometry-Dict Assembler for paths *)

Section PathDicts.
Context {A : Type} `{Coord A}.

Lemma path_dicts_subpaths_lines (array : list (A * A)) :
  path_dicts_subpaths array = column_lines array.
Proof.
  unfold path_dicts_subpaths, column_lines, segments.
  rewrite (foldl_append_ext _
    (λ ja, (λ part, if bool_decide (length part < 2) then None else Some (LineString part))
             (drop_nan (split_at_nans id array) ja.1 ja.2))).
  - simpl. rewrite <- omap_min_length.
    induction (enumerate (split_at_nans id array)) as [|ja l IH]; [done|].
    csimpl. by rewrite IH.
  - intros acc ja. unfold path_dicts_part. simpl. by case_bool_decide.
Qed.

(** What one iteration of the feature loop does, by the number of valid
    lines of the feature: one line is stored directly, several as a
    MultiLineString, and with none the assignment to [geom] is skipped, so
    the record receives whatever [geom] held before, or the read fails. *)
Lemma path_dicts_feature_cases (xname yname : string) (geom : option (geometry A))
    (geoms : list (gmap string (pyval A))) (i : nat) (d d' : gmap string (pyval A))
    (array : list (A * A)) :
  pop_coordinates xname yname d = Ok (array, d') →
  path_dicts_feature xname yname (geom, geoms) (i, d)
  = match column_lines array with
    | [] => match geom with
            | Some g => Ok (Some g, geoms ++ [<["geometry" := VGeom g]> d'])
            | None => Raise (UnboundLocalError "geom")
            end
    | [line] => Ok (Some line, geoms ++ [<["geometry" := VGeom line]> d'])
    | lines => Ok (Some (MultiLineString lines),
                   geoms ++ [<["geometry" := VGeom (MultiLineString lines)]> d'])
    end.
Proof.
  intros Hpop. unfold path_dicts_feature. simpl. rewrite Hpop. simpl.
  rewrite path_dicts_subpaths_lines.
  destruct (column_lines array) as [|line [|line' lines]]; simpl.
  - by destruct geom.
  - done.
  - done.
Qed.

End PathDicts.

(** C2 (the code at the failing inputs): a feature with no valid line does
    not come out without a geometry.  Alone, it makes [path_to_geom_dicts]
    raise; after a feature with a line, its record carries that earlier
    feature's LineString. *)
Theorem path_to_geom_dicts_no_valid_line :
  path_to_geom_dicts path_single_point = Raise (UnboundLocalError "geom")
  ∧ ∃ d1 d2,
      path_to_geom_dicts path_line_then_point = Ok [d1; d2]
      ∧ d1 !! "geometry" = Some (VGeom (LineString [(0, 0); (1, 1)]%float))
      ∧ d2 !! "name" = Some (VAttr "b")
      ∧ d2 !! "geometry" = Some (VGeom (LineString [(0, 0); (1, 1)]%float)).
Proof.
  split; [vm_compute; reflexivity|].
  exists (<["geometry" := VGeom (LineString [(0, 0); (1, 1)]%float)]>
            (<["name" := VAttr "a"]> ∅)),
         (<["geometry" := VGeom (LineString [(0, 0); (1, 1)]%float)]>
            (<["name" := VAttr "b"]> ∅)).
  repeat split; vm_compute; reflexivity.
Qed.

(** ** Geometry-Dict Assembler for polygons *)

Section PolygonDicts.
Context {A : Type} `{Coord A}.

Lemma enumerate_from_fmap {X Y : Type} (g : nat → X → Y) (i : nat) (l : list X) :
  enumerate_from i ((λ jx, g jx.1 jx.2) <$> enumerate_from i l)
  = (λ jx, (jx.1, g jx.1 jx.2)) <$> enumerate_from i l.
Proof.
  revert i. induction l as [|x l IH]; intros i; [done|]. csimpl. by rewrite IH.
Qed.

Lemma foldlM_fmap {S X Y : Type} (f : S → Y → result S) (h : X → Y) (s : S) (l : list X) :
  foldlM f s (h <$> l) = foldlM (λ s x, f s (h x)) s l.
Proof.
  revert s. induction l as [|x l IH]; intros s; [done|]. csimpl.
  destruct (f s (h x)); simpl; [apply IH|done].
Qed.

Lemma foldlM_ext {S X : Type} (f g : S → X → result S) (s : S) (l : list X) :
  (∀ s x, f s x = g s x) → foldlM f s l = foldlM g s l.
Proof.
  intros Hfg. revert s. induction l as [|x l IH]; intros s; [done|]. simpl.
  rewrite Hfg. destruct (g s x); simpl; [apply IH|done].
Qed.

Lemma Polygon_of_rings (shell : list (A * A)) (hs : list (list (A * A))) :
  Polygon_of shell (LinearRing <$> hs) = Polygon shell hs.
Proof.
  unfold Polygon_of. f_equal. rewrite <- list_fmap_compose. by rewrite list_fmap_id.
Qed.

(** One iteration, for a part whose hole list exists if it needs one. *)
Lemma polygons_body_positional (skip_invalid no_splits : bool)
    (holes_i : list (list (list (A * A)))) (invalid : bool) (subpolys : list (geometry A))
    (j : nat) (part : list (A * A)) :
  (3 ≤ length part → is_Some (holes_i !! j)) →
  polygons_body skip_invalid true no_splits (fmap (M:=list) (fmap (M:=list) LinearRing) holes_i)
                (invalid, subpolys) (j, part)
  = Ok (invalid || negb skip_invalid && bool_decide (length part < 3),
        subpolys ++ option_list (positional_poly skip_invalid holes_i (j, part))).
Proof.
  intros Hj. unfold polygons_body, positional_poly. simpl.
  case_bool_decide as Hlen.
  - destruct skip_invalid; simpl.
    + by rewrite orb_false_r, app_nil_r.
    + by rewrite orb_true_r.
  - destruct Hj as [hs Hhs]; [lia|].
    unfold py_index. rewrite list_lookup_fmap, Hhs. simpl.
    rewrite andb_false_r, orb_false_r, Polygon_of_rings.
    by destruct no_splits.
Qed.

(** The inner loop when every part that becomes a polygon has a hole list
    at its own position. *)
Lemma polygons_parts_positional (skip_invalid no_splits : bool)
    (holes_i : list (list (list (A * A)))) (parts : list (nat * list (A * A)))
    (invalid : bool) (subpolys : list (geometry A)) :
  Forall (λ jp, 3 ≤ length jp.2 → is_Some (holes_i !! jp.1)) parts →
  foldlM (polygons_body skip_invalid true no_splits
            (fmap (M:=list) (fmap (M:=list) LinearRing) holes_i))
         (invalid, subpolys) parts
  = Ok (invalid || negb skip_invalid && bool_decide (Exists (λ jp, length jp.2 < 3) parts),
        subpolys ++ omap (positional_poly skip_invalid holes_i) parts).
Proof.
  intros Hholes. revert invalid subpolys.
  induction Hholes as [|[j part] parts Hj _ IH]; intros invalid subpolys.
  - simpl. by rewrite andb_false_r, orb_false_r, app_nil_r.
  - cbn [foldlM]. rewrite polygons_body_positional by done.
    cbn [result_bind]. rewrite IH. f_equal. f_equal.
    + rewrite <- orb_assoc. f_equal. rewrite <- andb_orb_distrib_r. f_equal.
      destruct (bool_decide (length part < 3)) eqn:Hlen.
      * simpl. apply bool_decide_eq_true in Hlen. symmetry.
        apply bool_decide_eq_true. by left.
      * simpl. apply bool_decide_eq_false in Hlen.
        apply bool_decide_ext. rewrite Exists_cons. simpl. tauto.
    + rewrite <- app_assoc. f_equal. csimpl.
      by destruct (positional_poly skip_invalid holes_i (j, part)).
Qed.

Lemma polygons_subpolys_positional (skip_invalid : bool)
    (holes : list (list (list (list (A * A))))) (holes_i : list (list (list (A * A))))
    (i : nat) (array : list (A * A)) :
  holes !! i = Some holes_i →
  length (segments id array) ≤ length holes_i →
  polygons_subpolys skip_invalid true holes i array
  = Ok (degraded skip_invalid array, positional_polys skip_invalid holes_i array).
Proof.
  intros Hi Hlen. unfold polygons_subpolys, py_index. rewrite Hi. cbn [result_bind].
  unfold polygons_part.
  rewrite <- (foldlM_fmap _
    (λ ja : nat * list (A * A), (ja.1, drop_nan (split_at_nans id array) ja.1 ja.2))).
  unfold enumerate.
  rewrite <- (enumerate_from_fmap (drop_nan (split_at_nans id array))).
  fold (enumerate (split_at_nans id array)). fold (segments id array).
  rewrite polygons_parts_positional.
  - simpl. unfold degraded, positional_polys, enumerate. f_equal. f_equal. f_equal.
    apply bool_decide_ext. rewrite !Exists_exists. split.
    + intros ([j part] & Hin & Hshort). exists part. split; [|done].
      apply list_elem_of_lookup in Hin as [k Hk].
      rewrite enumerate_from_lookup in Hk.
      destruct (segments id array !! k) eqn:Hseg; simplify_eq/=.
      by eapply list_elem_of_lookup_2.
    + intros (part & Hin & Hshort).
      apply list_elem_of_lookup in Hin as [k Hk].
      exists (k, part). split; [|done].
      apply list_elem_of_lookup. exists k. rewrite enumerate_from_lookup, Hk. done.
  - apply Forall_lookup. intros k [j part] Hk _. simpl.
    rewrite enumerate_from_lookup in Hk.
    destruct (segments id array !! k) eqn:Hseg; simplify_eq/=.
    apply lookup_lt_is_Some. apply lookup_lt_Some in Hseg. lia.
Qed.

Lemma polygons_feature_positional (skip_invalid : bool)
    (holes : list (list (list (list (A * A))))) (holes_i : list (list (list (A * A))))
    (xname yname : string) (polys : list (gmap string (pyval A))) (i : nat)
    (d polygon : gmap string (pyval A)) (array : list (A * A)) :
  holes !! i = Some holes_i →
  pop_coordinates xname yname d = Ok (array, polygon) →
  length (segments id array) ≤ length holes_i →
  polygons_feature skip_invalid true holes xname yname polys (i, d)
  = Ok (polys ++ feature_records (degraded skip_invalid array)
                   (positional_polys skip_invalid holes_i array) polygon).
Proof.
  intros Hi Hpop Hlen. unfold polygons_feature. simpl. rewrite Hpop. simpl.
  rewrite (polygons_subpolys_positional _ _ holes_i) by done. simpl.
  unfold feature_records. destruct (degraded skip_invalid array); [done|].
  destruct (positional_polys skip_invalid holes_i array) as [|g [|g' gs]]; simpl.
  - by rewrite app_nil_r.
  - done.
  - done.
Qed.

Lemma polygons_features_positional (skip_invalid : bool) (xname yname : string)
    (done_holes rest_holes : list (list (list (list (A * A)))))
    (ds : list (gmap string (pyval A))) (fs : list (list (A * A) * gmap string (pyval A)))
    (polys : list (gmap string (pyval A))) :
  Forall2 (λ d f, pop_coordinates xname yname d = Ok (f.1, f.2)) ds fs →
  Forall2 (λ holes_i f, length (segments id f.1) ≤ length holes_i) rest_holes fs →
  foldlM (polygons_feature skip_invalid true (done_holes ++ rest_holes) xname yname)
         polys (enumerate_from (length done_holes) ds)
  = Ok (polys ++ concat (zip_with
          (λ holes_i f, feature_records (degraded skip_invalid f.1)
                          (positional_polys skip_invalid holes_i f.1) f.2)
          rest_holes fs)).
Proof.
  intros Hpop. revert done_holes rest_holes polys.
  induction Hpop as [|d [array polygon] ds fs Hd _ IH]; intros done_holes rest_holes polys Hholes.
  - inversion Hholes; subst. simpl. by rewrite app_nil_r.
  - inversion Hholes as [|holes_i ? rest_holes' ? Hlen Hrest]; subst. simpl in *.
    rewrite (polygons_feature_positional _ _ holes_i _ _ _ _ _ polygon array); try done.
    2:{ rewrite lookup_app_r by done. by rewrite Nat.sub_diag. }
    cbn [result_bind].
    specialize (IH (done_holes ++ [holes_i]) rest_holes').
    rewrite length_app, <- app_assoc in IH. simpl in IH.
    rewrite Nat.add_1_r in IH. rewrite IH by done. by rewrite <- app_assoc.
Qed.

(** C4: hole association in [polygons_to_geom_dicts] is positional.  For a
    columnar Polygons element that declares holes, with one hole list per
    emitted part of every feature, the function returns, feature by feature,
    the records built from [positional_polys]: the polygon of part [j] of
    feature [i] is [Polygon part (holes[i][j])], whatever the coordinates of
    rings and holes are.  Nothing but the index decides the association: the
    embedding is parametric in the coordinate type, whose only operation is
    the not-a-number test. *)
Theorem hole_association_positional (polygons : element A) (skip_invalid : bool)
    (xdim ydim : string) (fs : list (list (A * A) * gmap string (pyval A))) :
  interface_datatype polygons ≠ "geodataframe" →
  interface_datatype polygons ≠ "geom_dictionary" →
  kdims polygons = [xdim; ydim] →
  has_holes polygons = true →
  Forall2 (λ d f, pop_coordinates xdim ydim d = Ok (f.1, f.2)) (split_columns polygons) fs →
  Forall2 (λ holes_i f, length (segments id f.1) ≤ length holes_i) (holes polygons) fs →
  polygons_to_geom_dicts polygons skip_invalid
  = Ok (concat (zip_with
          (λ holes_i f, feature_records (degraded skip_invalid f.1)
                          (positional_polys skip_invalid holes_i f.1) f.2)
          (holes polygons) fs))
  ∧ ∀ (holes_i : list (list (list (A * A)))) (j : nat) (part : list (A * A))
      (hs : list (list (A * A))),
      holes_i !! j = Some hs → 3 ≤ length part →
      positional_poly skip_invalid holes_i (j, part) = Some (Polygon part hs).
Proof.
  intros Hgdf Hgd Hk Hh Hpop Hholes. split.
  - unfold polygons_to_geom_dicts.
    destruct (String.eqb_spec (interface_datatype polygons) "geodataframe"); [done|].
    destruct (String.eqb_spec (interface_datatype polygons) "geom_dictionary"); [done|].
    rewrite Hk, Hh. simpl.
    exact (polygons_features_positional skip_invalid xdim ydim [] (holes polygons)
             (split_columns polygons) fs [] Hpop Hholes).
  - intros holes_i j part hs Hj Hlen. unfold positional_poly. simpl.
    rewrite bool_decide_false by lia. by rewrite Hj.
Qed.

End PolygonDicts.

(** C4 witness: a feature of two rings; the hole listed first goes to the
    first ring and the second ring, whose list is empty, gets none. *)
Lemma hole_association_positional_witness :
  ∃ d, polygons_to_geom_dicts two_rings true = Ok [d]
       ∧ d !! "geometry"
         = Some (VGeom (MultiPolygon [Polygon ring_a [hole_a]; Polygon ring_b []])).
Proof.
  destruct (hole_association_positional two_rings true "x" "y"
              [(ring_a ++ [(nan, nan)%float] ++ ring_b,
                <["name" := VAttr "a"]> (∅ : gmap string (pyval float)))])
    as [Hres _].
  - vm_compute. discriminate.
  - vm_compute. discriminate.
  - reflexivity.
  - reflexivity.
  - constructor; [|constructor]. vm_compute. reflexivity.
  - constructor; [|constructor]. vm_compute. lia.
  - rewrite Hres.
    exists (<["geometry" := VGeom (MultiPolygon [Polygon ring_a [hole_a]; Polygon ring_b []])]>
              (<["name" := VAttr "a"]> ∅)).
    split; vm_compute; reflexivity.
Defined.

(** ** Array Recoverer *)

Section RecovererFacts.
Context {A : Type} `{Coord A}.

Lemma reshape2_flat_coords (cs : list (A * A)) : reshape2 (flat_coords cs) = cs.
Proof.
  unfold flat_coords. induction cs as [|[x y] cs IH]; [done|]. csimpl. by rewrite IH.
Qed.

Lemma flat_coords_length (cs : list (A * A)) : length (flat_coords cs) = 2 * length cs.
Proof.
  unfold flat_coords. induction cs as [|[x y] cs IH]; [done|]. csimpl. rewrite IH. lia.
Qed.

(** A line or ring gives back its coordinate rows. *)
Lemma geom_to_arr_line (cs : list (A * A)) :
  geom_to_arr (LineString cs) = Ok cs ∧ geom_to_arr (LinearRing cs) = Ok cs.
Proof.
  assert ((2 * length cs) mod 2 = 0) as Heven.
  { by rewrite Nat.mul_comm, Nat.Div0.mod_mul. }
  unfold geom_to_arr. cbn [array_interface_data result_bind].
  rewrite flat_coords_length, bool_decide_false by (rewrite Heven; tauto).
  by rewrite reshape2_flat_coords.
Qed.

Lemma geom_to_array_parts (gs : list (geometry A)) (arrs : list (list (A * A)))
    (xs ys : list (list A)) :
  Forall2 (λ g arr, geom_to_arr g = Ok arr) gs arrs →
  foldlM geom_to_array_part (xs, ys) gs
  = Ok (xs ++ (arrs ≫= λ arr, [arr.*1; [NaN]]), ys ++ (arrs ≫= λ arr, [arr.*2; [NaN]])).
Proof.
  intros Hparts. revert xs ys.
  induction Hparts as [|g arr gs arrs Hg _ IH]; intros xs ys; simpl.
  - by rewrite !app_nil_r.
  - unfold geom_to_array_part at 1. rewrite Hg. simpl. rewrite IH.
    csimpl. by rewrite <- !app_assoc.
Qed.

Lemma drop_last_sentinel {X Y : Type} (f : X → Y) (n : Y) (x : X) (l : list X) :
  let L := (x :: l) ≫= λ a, [f a; n] in
  take (length L - 1) L = f x :: (l ≫= λ a, [n; f a]).
Proof.
  revert x. induction l as [|y l IH]; intros x; [done|].
  specialize (IH y). csimpl in *. by rewrite IH.
Qed.

Lemma sentinel_join_cons (part : list (A * A)) (parts : list (list (A * A))) :
  sentinel_join (part :: parts) = part ++ (parts ≫= λ q, (NaN, NaN) :: q).
Proof.
  revert part. induction parts as [|q parts IH]; intros part.
  - simpl. by rewrite app_nil_r.
  - change (sentinel_join (part :: q :: parts))
      with (part ++ [(NaN, NaN)] ++ sentinel_join (q :: parts)).
    rewrite IH. done.
Qed.

Lemma zip_columns (part : list (A * A)) (parts : list (list (A * A))) (n : A) :
  zip (concat (part.*1 :: (parts ≫= λ a, [[n]; a.*1])))
      (concat (part.*2 :: (parts ≫= λ a, [[n]; a.*2])))
  = part ++ (parts ≫= λ q, (n, n) :: q).
Proof.
  revert part. induction parts as [|q parts IH]; intros part.
  - csimpl. rewrite !app_nil_r. apply zip_fst_snd.
  - specialize (IH q). csimpl in *.
    rewrite zip_with_app by (by rewrite !length_fmap).
    rewrite zip_fst_snd. f_equal. simpl. f_equal. exact IH.
Qed.

Lemma columns_length (part : list (A * A)) (parts : list (list (A * A))) (n : A) :
  length (concat (part.*1 :: (parts ≫= λ a, [[n]; a.*1])))
  = length (concat (part.*2 :: (parts ≫= λ a, [[n]; a.*2]))).
Proof.
  revert part. induction parts as [|q parts IH]; intros part.
  - csimpl. by rewrite !app_nil_r, !length_fmap.
  - specialize (IH q). csimpl in *.
    rewrite !length_app, !length_fmap in *. simpl.
    rewrite !length_app, !length_fmap. lia.
Qed.

Lemma geom_to_array_join (geom : geometry A) (gs : list (geometry A))
    (arrs : list (list (A * A))) :
  has_parts geom = true →
  iter_geom geom = Ok gs →
  gs ≠ [] →
  Forall2 (λ g arr, geom_to_arr g = Ok arr) gs arrs →
  geom_to_array geom = Ok (sentinel_join arrs).
Proof.
  intros Hmulti Hiter Hne Hparts.
  assert (geom_to_array geom
          = (gs <- iter_geom geom;
             '(xs, ys) <- foldlM geom_to_array_part ([], []) gs;
             xs <- (if bool_decide (xs ≠ []) then np_concatenate (take (length xs - 1) xs)
                    else Ok []);
             ys <- (if bool_decide (ys ≠ []) then np_concatenate (take (length ys - 1) ys)
                    else Ok []);
             column_stack xs ys)) as ->.
  { by destruct geom. }
  rewrite Hiter. cbn [result_bind].
  rewrite (geom_to_array_parts _ _ _ _ Hparts). cbn [result_bind app].
  destruct Hparts as [|g arr gs arrs Hg Hparts]; [done|].
  rewrite !bool_decide_true by done.
  rewrite (drop_last_sentinel (λ a : list (A * A), a.*1) [NaN] arr arrs).
  rewrite (drop_last_sentinel (λ a : list (A * A), a.*2) [NaN] arr arrs).
  unfold np_concatenate. cbn [result_bind]. unfold column_stack.
  rewrite bool_decide_true by apply columns_length.
  by rewrite zip_columns, sentinel_join_cons.
Qed.

Lemma count_sentinels_join (parts : list (list (A * A))) :
  Forall (Forall (λ r, is_sentinel id r = false)) parts →
  count_sentinels (parts ≫= λ q, (NaN, NaN) :: q) = length parts.
Proof.
  unfold count_sentinels. induction 1 as [|q parts Hq _ IH]; [done|]. csimpl.
  rewrite filter_cons_True.
  2:{ unfold is_sentinel. simpl. by rewrite isnan_NaN. }
  rewrite filter_app, length_cons, length_app, IH. f_equal.
  replace (filter (λ r : A * A, is_sentinel id r = true) q) with (@nil (A * A)); [done|].
  symmetry. induction Hq as [|r q Hr _ IHq]; [done|].
  rewrite filter_cons_False by congruence. done.
Qed.

Lemma count_sentinels_valid (part : list (A * A)) :
  Forall (λ r, is_sentinel id r = false) part → count_sentinels part = 0.
Proof.
  unfold count_sentinels. induction 1 as [|r q Hr _ IHq]; [done|].
  rewrite filter_cons_False by congruence. done.
Qed.

Lemma sentinel_join_length (parts : list (list (A * A))) :
  length (sentinel_join parts) = sum_list (length <$> parts) + (length parts - 1).
Proof.
  destruct parts as [|part parts]; [done|]. rewrite sentinel_join_cons.
  rewrite length_app. csimpl. rewrite Nat.sub_0_r, <- Nat.add_assoc. f_equal.
  induction parts as [|q parts IH]; [done|]. csimpl. rewrite length_app, IH. lia.
Qed.

Lemma sentinel_join_ends (parts : list (list (A * A))) :
  parts ≠ [] →
  Forall (λ part, part ≠ []) parts →
  Forall (Forall (λ r, is_sentinel id r = false)) parts →
  ∃ first final,
    head (sentinel_join parts) = Some first ∧ last (sentinel_join parts) = Some final
    ∧ is_sentinel id first = false ∧ is_sentinel id final = false.
Proof.
  intros Hne Hfull Hvalid.
  assert (∃ final, last (sentinel_join parts) = Some final ∧ is_sentinel id final = false)
    as (final & Hfinal & Hvfinal).
  { induction parts as [|part parts IH]; [done|].
    - inversion Hfull as [|? ? Hp Hfull']; inversion Hvalid as [|? ? Hv Hvalid']; subst.
      destruct parts as [|q parts].
      + simpl. destruct (last part) as [r|] eqn:Hr.
        * exists r. split; [done|]. rewrite Forall_forall in Hv. apply Hv.
          by apply last_Some_elem_of.
        * by apply last_None in Hr.
      + destruct (IH ltac:(done) Hfull' Hvalid') as (final & Hfinal & Hvfinal).
        exists final. split; [|done].
        change (sentinel_join (part :: q :: parts))
          with (part ++ [(NaN, NaN)] ++ sentinel_join (q :: parts)).
        by rewrite !last_app, Hfinal. }
  destruct parts as [|part parts]; [done|].
  inversion Hfull as [|? ? Hp _]; inversion Hvalid as [|? ? Hv _]; subst.
  destruct part as [|first part]; [done|].
  exists first, final. rewrite sentinel_join_cons in *.
  repeat split; try done. by inversion Hv.
Qed.


End RecovererFacts.


(** ** [to_ccw] *)

Section OrientationFacts.
Context {A : Type} (is_ccw : geometry A → bool) (orient : geometry A → geometry A).

(** C10: [to_ccw] returns a geometry that is not a Polygon, or a Polygon
    whose exterior is counter-clockwise, unchanged, and reorients exactly
    the Polygons with a clockwise exterior.  Given of the library's [orient]
    that its result has a counter-clockwise exterior, or else is a polygon
    [orient] leaves alone, [to_ccw] is idempotent. *)
Theorem to_ccw_idempotent :
  (∀ shell holes, is_ccw (LinearRing shell) = false →
     (∀ ring, exterior (orient (Polygon shell holes)) = Ok ring → is_ccw ring = true)
     ∨ orient (orient (Polygon shell holes)) = orient (Polygon shell holes)) →
  (∀ geom, isinstance_Polygon geom = false → to_ccw is_ccw orient geom = Ok geom)
  ∧ (∀ shell holes, is_ccw (LinearRing shell) = true →
       to_ccw is_ccw orient (Polygon shell holes) = Ok (Polygon shell holes))
  ∧ (∀ shell holes, is_ccw (LinearRing shell) = false →
       to_ccw is_ccw orient (Polygon shell holes) = Ok (orient (Polygon shell holes)))
  ∧ (∀ geom, (g <- to_ccw is_ccw orient geom; to_ccw is_ccw orient g)
             = to_ccw is_ccw orient geom).
Proof.
  intros Horient.
  assert (∀ geom, isinstance_Polygon geom = false → to_ccw is_ccw orient geom = Ok geom)
    as Hother.
  { intros geom Hno. unfold to_ccw. by rewrite Hno. }
  assert (∀ shell holes, is_ccw (LinearRing shell) = true →
            to_ccw is_ccw orient (Polygon shell holes) = Ok (Polygon shell holes)) as Hccw.
  { intros shell holes Hc. unfold to_ccw. simpl. by rewrite Hc. }
  assert (∀ shell holes, is_ccw (LinearRing shell) = false →
            to_ccw is_ccw orient (Polygon shell holes) = Ok (orient (Polygon shell holes)))
    as Hcw.
  { intros shell holes Hc. unfold to_ccw. simpl. by rewrite Hc. }
  repeat split; try done.
  intros geom. destruct (isinstance_Polygon geom) eqn:Hpoly.
  - destruct geom as [| | |shell holes| | | |]; try discriminate.
    destruct (is_ccw (LinearRing shell)) eqn:Hc.
    + rewrite Hccw by done. simpl. by apply Hccw.
    + rewrite Hcw by done. simpl.
      destruct (orient (Polygon shell holes)) as [| | |shell' holes'| | | |] eqn:Ho;
        try (by apply Hother).
      destruct (is_ccw (LinearRing shell')) eqn:Hc'; [by apply Hccw|].
      rewrite Hcw by done. f_equal.
      destruct (Horient shell holes Hc) as [Hring|Hfix].
      * rewrite Ho in Hring. specialize (Hring (LinearRing shell') eq_refl). congruence.
      * by rewrite Ho in Hfix.
  - rewrite Hother by done. simpl. by apply Hother.
Qed.

End OrientationFacts.

Lemma area2_snoc (ring : list (Z * Z)) (p : Z * Z) :
  area2 (ring ++ [p])
  = (area2 ring + match last ring with Some q => cross q p | None => 0 end)%Z.
Proof.
  induction ring as [|q ring IH]; [done|].
  destruct ring as [|q' ring].
  - simpl. lia.
  - change (area2 ((q :: q' :: ring) ++ [p]))
      with (cross q q' + area2 ((q' :: ring) ++ [p]))%Z.
    rewrite IH, last_cons_cons.
    change (area2 (q :: q' :: ring)) with (cross q q' + area2 (q' :: ring))%Z. lia.
Qed.

Lemma area2_reverse (ring : list (Z * Z)) : area2 (reverse ring) = (- area2 ring)%Z.
Proof.
  induction ring as [|p ring IH]; [done|].
  rewrite reverse_cons, area2_snoc, last_reverse, IH.
  destruct ring as [|q ring]; simpl; [done|]. unfold cross. lia.
Qed.

(** The signed-area model meets what [to_ccw_idempotent] asks of [orient]. *)
Lemma area_orient_settles (shell : list (Z * Z)) (holes : list (list (Z * Z))) :
  area_is_ccw (LinearRing shell) = false →
  (∀ ring, exterior (area_orient (Polygon shell holes)) = Ok ring → area_is_ccw ring = true)
  ∨ area_orient (area_orient (Polygon shell holes)) = area_orient (Polygon shell holes).
Proof.
  unfold area_is_ccw. simpl. intros Hcw. apply Z.ltb_ge in Hcw.
  destruct (Z.leb_spec 0 (area2 shell)) as [Hzero|Hneg].
  - right. assert (area2 shell = 0%Z) as Hz by lia.
    rewrite Z.leb_refl || rewrite Hz. simpl.
    destruct (Z.leb_spec 0 (area2 shell)); [|lia]. f_equal.
    rewrite <- list_fmap_compose. apply list_fmap_ext. intros _ h _. simpl.
    destruct (Z.leb_spec (area2 h) 0) as [Hh|Hh].
    + by destruct (Z.leb_spec (area2 h) 0); [|lia].
    + rewrite area2_reverse. by destruct (Z.leb_spec (- area2 h) 0); [|lia].
  - left. intros ring Hring. injection Hring as <-. simpl.
    rewrite area2_reverse. apply Z.ltb_lt. lia.
Qed.

(** C10 witness: the clockwise square is reoriented once, and a second
    [to_ccw] changes nothing. *)
Lemma to_ccw_idempotent_witness :
  to_ccw area_is_ccw area_orient cw_square
  = Ok (Polygon [(0, 0); (4, 0); (4, 4); (0, 4); (0, 0)]%Z
                [[(1, 1); (1, 2); (2, 2); (2, 1); (1, 1)]%Z])
  ∧ (g <- to_ccw area_is_ccw area_orient cw_square; to_ccw area_is_ccw area_orient g)
    = to_ccw area_is_ccw area_orient cw_square.
Proof.
  destruct (to_ccw_idempotent area_is_ccw area_orient area_orient_settles)
    as (_ & _ & Hcw & Hidem).
  split; [|apply Hidem].
  unfold cw_square. rewrite Hcw; reflexivity.
Defined.

(** ** Longitude wrap *)

(** numpy's [%] at a few operands: the result takes the sign of the divisor. *)
Example np_remainder_samples :
  np_remainder 1100 360 = 20%float
  ∧ np_remainder 700 360 = 340%float
  ∧ np_remainder (-20) 360 = 340%float
  ∧ np_remainder 20 (-360) = (-340)%float
  ∧ np_remainder 7.5 2 = 1.5%float
  ∧ np_remainder 720 360 = 0%float.
Proof. by vm_compute. Qed.


(** ** Extent Reprojector: failures of the projection *)

Section ExtentsFacts.
Context {F : Type} `{Numeric F}.

Lemma linspace_nonempty (start stop : F) (num : N) :
  num ≠ 0%N → linspace start stop num ≠ [].
Proof.
  intros Hnum. unfold linspace.
  destruct (N.eqb_spec num 0); [done|].
  destruct (N.eqb_spec num 1); [done|].
  intros Happ. by apply app_eq_nil in Happ as [_ ?].
Qed.

Lemma clip_extents_ok (extents : F * F * F * F) (src_proj : CRS F) (tol : F) :
  ∃ box, clip_extents extents src_proj tol = Ok box.
Proof.
  destruct extents as [[[x1 y1] x2] y2]. unfold clip_extents.
  destruct (y_limits src_proj) as [cy1 cy2], (x_limits src_proj) as [cx1 cx2].
  destruct (is_cylindrical src_proj); [|by eexists].
  match goal with |- context [linspace ?a ?b ?n] =>
    pose proof (linspace_nonempty a b n ltac:(done)) as Hne;
    destruct (linspace a b n) as [|lon lons]; [done|] end.
  by eexists.
Qed.

(** C6 (amended): when the projections differ and [project_geometry] fails
    on the region of the source projection, [project_extents] never returns
    a normal result.  A [ValueError] is caught and replaced by the
    descriptive [ValueError] that names the source and the destination
    projection and asks to check the crs against the data; a failure of any
    other class is not caught and propagates as it is. *)
Theorem project_extents_projection_failure (lib : GeoLib F) (extents : F * F * F * F)
    (src_proj dest_proj : CRS F) (tol : F) :
  crs_ne lib src_proj dest_proj = true →
  ∃ box, clip_extents extents src_proj tol = Ok box
    ∧ ∀ e, project_geometry lib dest_proj (geom_in_src_proj lib src_proj box) src_proj = Raise e →
        raised (project_extents lib extents src_proj dest_proj tol)
        ∧ (∀ msg, e = ValueError msg →
             project_extents lib extents src_proj dest_proj tol
             = Raise (ValueError
                 ("Could not project data from " +:+ crs_name src_proj
                  +:+ " projection to " +:+ crs_name dest_proj
                  +:+ " projection. Ensure the coordinate reference system (crs) "
                  +:+ "matches your data and the kdims.")))
        ∧ ((∀ msg, e ≠ ValueError msg) →
             project_extents lib extents src_proj dest_proj tol = Raise e).
Proof.
  intros Hne. destruct (clip_extents_ok extents src_proj tol) as [box Hbox].
  exists box. split; [done|]. intros e He.
  unfold project_extents. rewrite Hbox. cbn [result_bind].
  destruct box as [[[x1 y1] x2] y2]. rewrite Hne, He.
  split; [|split].
  - by destruct e.
  - intros msg ->. reflexivity.
  - intros Hother. destruct e; try done. by destruct (Hother msg).
Qed.

End ExtentsFacts.

(** C6 witness: a projection that rejects the region with a [ValueError]. *)
Lemma project_extents_projection_failure_witness :
  project_extents (box_lib project_unsupported) (0, 0, 100, 100)%Q osgb plate_carree (1 # 1000000)%Q
  = Raise (ValueError ("Could not project data from OSGB projection to PlateCarree "
                       +:+ "projection. Ensure the coordinate reference system (crs) "
                       +:+ "matches your data and the kdims.")).
Proof.
  destruct (project_extents_projection_failure (box_lib project_unsupported)
              (0, 0, 100, 100)%Q osgb plate_carree (1 # 1000000)%Q eq_refl)
    as (box & _ & Hfail).
  destruct (Hfail (ValueError "Unsupported geometry type") eq_refl) as (_ & Hvalue & _).
  exact (Hvalue _ eq_refl).
Defined.

(** C6 (as stated) fails: a failure that is not a [ValueError] is not
    re-raised as the descriptive error. *)
Lemma project_extents_other_failure :
  ¬ reraises_descriptive (box_lib project_topology) (0, 0, 100, 100)%Q osgb plate_carree
      (1 # 1000000)%Q.
Proof.
  intros Hclaim.
  specialize (Hclaim _ _ eq_refl eq_refl). vm_compute in Hclaim. discriminate.
Qed.

(** ** Extent Reprojector: identical projections, exact arithmetic *)

Lemma Qltb_lt (a b : Q) : Qltb a b = true ↔ (a < b)%Q.
Proof.
  unfold Qltb. rewrite negb_true_iff. split.
  - intros Hle. apply Qnot_le_lt. intros Hba. apply Qle_bool_iff in Hba. congruence.
  - intros Hlt. destruct (Qle_bool b a) eqn:Hle; [|done].
    apply Qle_bool_iff in Hle. lra.
Qed.

Lemma Qltb_ge (a b : Q) : Qltb a b = false ↔ (b <= a)%Q.
Proof.
  unfold Qltb. rewrite negb_false_iff. apply Qle_bool_iff.
Qed.

Lemma fold_fmin_least (x : Q) (l : list Q) :
  Forall (λ v, (x <= v)%Q) l → foldl fmin x l = x.
Proof.
  induction 1 as [|v l Hv _ IH]; [done|]. simpl.
  unfold fmin at 2. simpl. rewrite (proj2 (Qltb_ge v x)) by done. exact IH.
Qed.

Lemma fold_fmax_le (x m : Q) (l : list Q) :
  (x <= m)%Q → Forall (λ v, (v <= m)%Q) l → (foldl fmax x l <= m)%Q.
Proof.
  intros Hx Hl. revert x Hx. induction Hl as [|v l Hv _ IH]; intros x Hx; [done|].
  simpl. apply IH. unfold fmax. simpl. by destruct (Qltb x v).
Qed.

Lemma fold_fmax_ge (x : Q) (l : list Q) :
  (x <= foldl fmax x l)%Q ∧ Forall (λ v, (v <= foldl fmax x l)%Q) l.
Proof.
  revert x. induction l as [|v l IH]; intros x; simpl.
  - split; [lra|done].
  - destruct (IH (fmax x v)) as [Hacc Hl].
    assert (x <= fmax x v ∧ v <= fmax x v)%Q as [Hx Hv].
    { unfold fmax. simpl. destruct (Qltb x v) eqn:Hlt.
      - apply Qltb_lt in Hlt. lra.
      - apply Qltb_ge in Hlt. lra. }
    split; [lra|]. constructor; [lra|done].
Qed.

Lemma Qfloor_between (x : Q) (n : Z) :
  (inject_Z n <= x)%Q → (x < inject_Z (n + 1))%Q → Qfloor x = n.
Proof.
  intros Hlo Hhi.
  pose proof (Qfloor_le x) as Hfl. pose proof (Qlt_floor x) as Hfu.
  assert (n < Qfloor x + 1)%Z as H1.
  { rewrite Zlt_Qlt. lra. }
  assert (Qfloor x < n + 1)%Z as H2.
  { rewrite Zlt_Qlt. lra. }
  lia.
Qed.

Lemma wrap_lon_inside (lon : Q) :
  (-180 <= lon)%Q → (lon < 180)%Q → (wrap_lon (-180) 360 lon == lon)%Q.
Proof.
  intros Hlo Hhi. unfold wrap_lon. simpl. unfold Qmod.
  rewrite (Qfloor_between _ 2).
  - change (inject_Z 2) with 2%Q. lra.
  - change (inject_Z 2) with 2%Q. apply Qle_shift_div_l.
    + lra.
    + lra.
  - change (inject_Z (2 + 1)) with 3%Q. change (inject_Z 2) with 2%Q.
    apply Qlt_shift_div_r; lra.
Qed.

(** Samples between [a] and [b] that start at [a], end at [b] and stay
    within [-180, 180): wrapping changes none of them, so the wrapped
    minimum and maximum are [a] and [b]. *)
Lemma wrapped_range (a b s0 sn : Q) (mid : list Q) :
  (-180 <= a)%Q → (b < 180)%Q →
  (s0 == a)%Q → (sn == b)%Q →
  Forall (λ v, (a <= v)%Q ∧ (v <= b)%Q) (s0 :: mid ++ [sn]) →
  ∃ lo hi,
    np_min (wrap_lons (s0 :: mid ++ [sn]) (-180)%Q 360%Q) = Ok lo
    ∧ np_max (wrap_lons (s0 :: mid ++ [sn]) (-180)%Q 360%Q) = Ok hi
    ∧ (lo == a)%Q ∧ (hi == b)%Q.
Proof.
  intros Ha Hb Hs0 Hsn Hall. unfold wrap_lons.
  assert (∀ v, (a <= v)%Q → (v <= b)%Q → (wrap_lon (-180) 360 v == v)%Q) as Hwrap.
  { intros v Hlo Hhi. apply wrap_lon_inside; lra. }
  set (w := wrap_lon (-180)%Q 360%Q) in *. clearbody w.
  inversion Hall as [|? ? [Hlo0 Hhi0] Hrest]; subst.
  rewrite fmap_cons. cbn [np_min np_max].
  eexists _, _. split; [reflexivity|]. split; [reflexivity|].
  assert (Forall (λ v, (a <= v)%Q ∧ (v <= b)%Q) (w <$> mid ++ [sn])) as Hw.
  { rewrite Forall_fmap. eapply Forall_impl; [exact Hrest|].
    intros v [Hlo Hhi]. unfold compose. cbv beta.
    pose proof (Hwrap v Hlo Hhi). split; lra. }
  pose proof (Hwrap s0 Hlo0 Hhi0) as Hw0.
  split.
  - rewrite fold_fmin_least; [lra|].
    eapply Forall_impl; [exact Hw|]. intros v [Hv _]. cbv beta. lra.
  - apply Qle_antisym.
    + apply fold_fmax_le; [lra|]. eapply Forall_impl; [exact Hw|]. by intros v [_ Hv].
    + destruct (fold_fmax_ge (w s0) (w <$> mid ++ [sn])) as [_ Hge].
      rewrite Forall_fmap, Forall_app, Forall_singleton in Hge.
      destruct Hge as [_ Hge]. unfold compose in Hge.
      assert (a <= sn ∧ sn <= b)%Q as [Hlon Hhin].
      { rewrite Forall_app, Forall_singleton in Hrest. tauto. }
      pose proof (Hwrap sn Hlon Hhin). lra.
Qed.

Lemma linspace_shape (a b : Q) (num : N) :
  (2 <= num)%N → (a <= b)%Q →
  ∃ s0 mid,
    linspace a b num = s0 :: mid ++ [b] ∧ (s0 == a)%Q
    ∧ Forall (λ v, (a <= v)%Q ∧ (v <= b)%Q) (s0 :: mid ++ [b]).
Proof.
  intros Hnum Hab. unfold linspace.
  destruct (N.eqb_spec num 0) as [|_]; [lia|].
  destruct (N.eqb_spec num 1) as [|_]; [lia|].
  set (n := N.to_nat (num - 1)).
  assert (1 ≤ n) as Hn by (unfold n; lia).
  set (f := λ i : nat, fadd (fmul (of_Z (Z.of_nat i)) (fdiv (fsub b a) (of_Z (Z.of_nat n)))) a).
  assert (∀ i, i ≤ n → (a <= f i)%Q ∧ (f i <= b)%Q) as Hf.
  { intros i Hi. unfold f. simpl.
    assert (0 < inject_Z (Z.of_nat n))%Q as Hpos.
    { change 0%Q with (inject_Z 0). rewrite <- Zlt_Qlt. lia. }
    assert (0 <= inject_Z (Z.of_nat i))%Q as Hi0.
    { change 0%Q with (inject_Z 0). rewrite <- Zle_Qle. lia. }
    assert (inject_Z (Z.of_nat i) <= inject_Z (Z.of_nat n))%Q as Hin.
    { rewrite <- Zle_Qle. lia. }
    set (qi := inject_Z (Z.of_nat i)) in *. set (qn := inject_Z (Z.of_nat n)) in *.
    assert (qi * ((b - a) / qn) == (b - a) * (qi / qn))%Q as -> by (field; lra).
    assert (0 <= qi / qn)%Q as Ht0 by (apply Qle_shift_div_l; lra).
    assert (qi / qn <= 1)%Q as Ht1 by (apply Qle_shift_div_r; lra).
    split; nra. }
  destruct n as [|n']; [lia|]. rewrite <- cons_seq, fmap_cons.
  exists (f 0), (f <$> seq 1 n'). split; [done|]. split.
  - unfold f. simpl. unfold Qdiv. ring.
  - constructor; [apply Hf; lia|]. rewrite Forall_app, Forall_singleton. split; [|lra].
    rewrite Forall_fmap, Forall_seq. intros i Hi. apply Hf. lia.
Qed.

Lemma clip_extents_inside (src_proj : CRS Q) (x1 y1 x2 y2 tol : Q) :
  ((y_limits src_proj).1 <= y1)%Q → (y2 <= (y_limits src_proj).2)%Q →
  (x1 + tol <= x2 - tol)%Q →
  (if is_cylindrical src_proj
   then (-180 <= x1 + tol ∧ x2 - tol < 180)%Q
   else ((x_limits src_proj).1 <= x1 + tol ∧ x2 - tol <= (x_limits src_proj).2)%Q) →
  ∃ a c, clip_extents (x1, y1, x2, y2) src_proj tol = Ok (a, y1 + tol, c, y2 - tol)%Q
         ∧ (a == x1 + tol)%Q ∧ (c == x2 - tol)%Q.
Proof.
  intros Hy1 Hy2 Hx Hlim. unfold clip_extents.
  destruct (y_limits src_proj) as [cy1 cy2], (x_limits src_proj) as [cx1 cx2].
  cbn [fst snd fltb fadd fsub Q_Numeric] in *.
  rewrite (proj2 (Qltb_ge y1 cy1)), (proj2 (Qltb_ge cy2 y2)) by done.
  destruct (is_cylindrical src_proj).
  - destruct Hlim as [Hlo Hhi].
    destruct (linspace_shape (x1 + tol) (x2 - tol) 10000 ltac:(lia) Hx)
      as (s0 & mid & Hshape & Hs0 & Hall).
    destruct (wrapped_range (x1 + tol) (x2 - tol) s0 (x2 - tol) mid Hlo Hhi Hs0
                ltac:(reflexivity) Hall) as (lo & hi & Hmin & Hmax & Hlo' & Hhi').
    change (of_Z (-180)) with (-180)%Q. change (of_Z 360) with 360%Q.
    rewrite Hshape, Hmin, Hmax. cbn [result_bind]. by exists lo, hi.
  - destruct Hlim as [Hlo Hhi].
    rewrite (proj2 (Qltb_ge (x1 + tol) cx1)), (proj2 (Qltb_ge cx2 (x2 - tol))) by done.
    cbn [result_bind]. eexists _, _. split; [reflexivity|]. split; reflexivity.
Qed.


Lemma clamp_inside (lo hi x : Q) : (lo <= x)%Q → (x <= hi)%Q → clamp lo hi x = x.
Proof.
  intros Hlo Hhi. unfold clamp.
  by rewrite (proj2 (Qltb_ge x lo)), (proj2 (Qltb_ge hi x)).
Qed.

Lemma fmin_eq_l (m v a : Q) : (m == a)%Q → (a <= v)%Q → (fmin m v == a)%Q.
Proof.
  intros Hm Hv. unfold fmin. simpl. destruct (Qltb v m) eqn:Hlt; [|done].
  apply Qltb_lt in Hlt. lra.
Qed.

Lemma fmax_eq_l (m v c : Q) : (m == c)%Q → (v <= c)%Q → (fmax m v == c)%Q.
Proof.
  intros Hm Hv. unfold fmax. simpl. destruct (Qltb m v) eqn:Hlt; [|done].
  apply Qltb_lt in Hlt. lra.
Qed.

Lemma fmax_eq_r (m v c : Q) : (m <= c)%Q → (v == c)%Q → (fmax m v == c)%Q.
Proof.
  intros Hm Hv. unfold fmax. simpl. destruct (Qltb m v) eqn:Hlt; [done|].
  apply Qltb_ge in Hlt. lra.
Qed.

(** The bounds of a rectangle given by its corners. *)
Lemma box_bounds_domain (a b c d : Q) :
  (a <= c)%Q → (b <= d)%Q → box_eq (box_bounds (domain_polygon a b c d)) (a, b, c, d).
Proof.
  intros Hac Hbd. unfold box_bounds, domain_polygon, box_eq.
  cbn [coords_of foldl fst snd].
  repeat split.
  - repeat (apply fmin_eq_l; [|lra]). reflexivity.
  - repeat (apply fmin_eq_l; [|lra]). reflexivity.
  - do 2 (apply fmax_eq_l; [|lra]). apply fmax_eq_l; [|lra].
    apply fmax_eq_r; [lra|reflexivity].
  - do 2 (apply fmax_eq_l; [|lra]). apply fmax_eq_r; [|reflexivity].
    assert (fmax b b == b)%Q as Hbb by (apply fmax_eq_l; [reflexivity|lra]). lra.
Qed.

(** The model library meets what [project_extents_identity] asks of the
    intersection with the equirectangular boundary. *)
Lemma box_lib_inside (project : CRS Q → geometry Q → CRS Q → result (geometry Q))
    (a b c d : Q) :
  (a <= c)%Q → (b <= d)%Q → inside_plate_carree (a, b, c, d) →
  box_eq (bounds (box_lib project)
            (intersection (box_lib project) (Polygon (coords_of (boundary plate_carree)) [])
                          (domain_polygon a b c d)))
         (a, b, c, d).
Proof.
  intros Hac Hbd (Ha & Hb & Hc & Hd). simpl in Ha, Hb, Hc, Hd.
  cbn [bounds intersection box_lib]. unfold box_intersection.
  replace (box_bounds (Polygon (coords_of (boundary plate_carree)) []))
    with (-180, -90, 180, 90)%Q by (by vm_compute).
  unfold domain_polygon at 1. cbn [coords_of fmap list_fmap fst snd].
  rewrite !clamp_inside by lra. by apply box_bounds_domain.
Qed.



(** ** Proj-String Parser *)

Section ProjParserFacts.
Context {N : Type} (py_float : string → option N).
Context (pyproj_Proj pyproj_Proj_init : crs_arg → result Proj).
Context (osr_export : option (string → string)).

Lemma parse_merc_srs :
  py_float "merc" = None →
  parse_srs py_float merc_srs
  = {| cl := Some Mercator;
       kw_proj := <["central_latitude" := parse_value py_float "0"]>
                    (<["false_northing" := parse_value py_float "100"]>
                       (<["false_easting" := parse_value py_float "500000"]> ∅));
       kw_globe := ∅;
       kw_std := ∅ |}.
Proof.
  intros Hmerc. unfold parse_srs, merc_srs.
  vm_compute. rewrite Hmerc. vm_compute. reflexivity.
Qed.
Lemma construct_mercator (st : parser_state N) :
  cl st = Some Mercator →
  (size (kw_std st) ≠ 0 → is_Some (kw_std st !! "lat_1") ∧ is_Some (kw_std st !! "lat_2")) →
  ∃ globe kw,
    construct st = Ok (Class_call Mercator globe
                         (delete "false_northing" (delete "false_easting" kw)))
    ∧ ∀ k, k ≠ "standard_parallels" → kw !! k = kw_proj st !! k.
Proof.
  intros Hcl Hstd. unfold construct. rewrite Hcl.
  case_bool_decide as Hsize.
  - destruct (Hstd Hsize) as [[lat_1 H1] [lat_2 H2]].
    unfold dict_get. rewrite H1, H2. cbn [result_bind read_local class_name].
    eexists _, _. split; [reflexivity|].
    intros k Hk. by rewrite lookup_insert_ne.
  - cbn [result_bind read_local class_name]. eexists _, _. split; [reflexivity|]. done.
Qed.

Lemma construct_drops_for_mercator (st : parser_state N) (c : proj_class)
    (globe : option (gmap string (kwval N))) (kw : gmap string (kwval N)) :
  construct st = Ok (Class_call c globe kw) →
  class_name c = "Mercator" →
  kw !! "false_easting" = None ∧ kw !! "false_northing" = None.
Proof.
  unfold construct. intros Hres Hname.
  destruct (if bool_decide (size (kw_std st) ≠ 0) then _ else _) as [kw0|e];
    cbn [result_bind] in Hres; [|done].
  destruct (cl st) as [c0|]; cbn [result_bind read_local] in Hres; [|done].
  injection Hres as -> _ <-. rewrite Hname. simpl.
  split.
  - rewrite lookup_delete_ne by done. apply lookup_delete_eq.
  - apply lookup_delete_eq.
Qed.


End ProjParserFacts.


(** * Further properties *)

(** ** [wrap_lons] in exact arithmetic *)

Lemma Qmod_range (x p : Q) : (0 < p)%Q → (0 <= Qmod x p)%Q ∧ (Qmod x p < p)%Q.
Proof.
  intros Hp. unfold Qmod.
  pose proof (Qfloor_le (x / p)) as Hlo. pose proof (Qlt_floor (x / p)) as Hhi.
  rewrite inject_Z_plus in Hhi. change (inject_Z 1) with 1%Q in Hhi.
  set (f := inject_Z (Qfloor (x / p))) in *.
  assert (x == p * (x / p))%Q as Hx by (field; lra).
  set (q := (x / p)%Q) in *. clearbody q f. split; nra.
Qed.

Lemma wrap_lon_range (base period lon : Q) :
  (0 < period)%Q →
  (base <= wrap_lon base period lon)%Q ∧ (wrap_lon base period lon < base + period)%Q.
Proof.
  intros Hp. unfold wrap_lon. cbn [fadd fsub fmul fmod of_Z Q_Numeric].
  destruct (Qmod_range (lon - base + period * inject_Z 2) period Hp) as [Hlo Hhi].
  split; lra.
Qed.

(** X1: for a positive period, in exact arithmetic, every value [wrap_lons]
    returns lies in the half-open range from [base] to [base + period]. *)
Theorem wrap_lons_in_range (lons : list Q) (base period : Q) :
  (0 < period)%Q →
  Forall (λ lon, (base <= lon)%Q ∧ (lon < base + period)%Q) (wrap_lons lons base period).
Proof.
  intros Hp. unfold wrap_lons. rewrite Forall_fmap. apply Forall_forall. intros lon _.
  unfold compose. by apply wrap_lon_range.
Qed.

Lemma wrap_lons_in_range_witness :
  Forall (λ lon, (-180 <= lon)%Q ∧ (lon < -180 + 360)%Q)
         (wrap_lons [200; -200; 540; -180; 7 # 2]%Q (-180)%Q 360%Q).
Proof. apply wrap_lons_in_range. reflexivity. Defined.

Lemma Qfloor_shift (y : Q) (k : Z) : Qfloor (y + inject_Z k) = (Qfloor y + k)%Z.
Proof.
  apply Qfloor_between.
  - rewrite inject_Z_plus. pose proof (Qfloor_le y). lra.
  - rewrite !inject_Z_plus. pose proof (Qlt_floor y) as Hy.
    rewrite inject_Z_plus in Hy. lra.
Qed.

(** X2: in exact arithmetic the wrap is periodic: moving a longitude by a
    whole number of periods does not change its wrapped value. *)
Theorem wrap_lon_periodic (base period lon : Q) (k : Z) :
  (0 < period)%Q →
  (wrap_lon base period (lon + inject_Z k * period) == wrap_lon base period lon)%Q.
Proof.
  intros Hp. unfold wrap_lon. cbn [fadd fsub fmul fmod of_Z Q_Numeric]. unfold Qmod.
  assert ((lon + inject_Z k * period - base + period * inject_Z 2) / period
          == (lon - base + period * inject_Z 2) / period + inject_Z k)%Q as Hshift.
  { field. lra. }
  rewrite (Qfloor_comp _ _ Hshift), Qfloor_shift, inject_Z_plus. ring.
Qed.

Lemma wrap_lon_periodic_witness :
  (wrap_lon (-180) 360 (10 + inject_Z 3 * 360) == wrap_lon (-180) 360 10)%Q.
Proof. apply wrap_lon_periodic. reflexivity. Defined.

(** X3: in exact arithmetic the wrap leaves every value that already lies
    in the range from [base] to [base + period] as it is, and wrapping twice
    is wrapping once. *)
Theorem wrap_lon_idempotent (base period : Q) :
  (0 < period)%Q →
  (∀ lon, (base <= lon)%Q → (lon < base + period)%Q → (wrap_lon base period lon == lon)%Q)
  ∧ (∀ lon, (wrap_lon base period (wrap_lon base period lon) == wrap_lon base period lon)%Q).
Proof.
  intros Hp.
  assert (∀ v, (base <= v)%Q → (v < base + period)%Q → (wrap_lon base period v == v)%Q)
    as Hfix.
  { intros v Hv1 Hv2. unfold wrap_lon. cbn [fadd fsub fmul fmod of_Z Q_Numeric].
    unfold Qmod. change (inject_Z 2) with 2%Q. rewrite (Qfloor_between _ 2).
    - change (inject_Z 2) with 2%Q. lra.
    - change (inject_Z 2) with 2%Q. apply Qle_shift_div_l; lra.
    - change (inject_Z (2 + 1)) with 3%Q. apply Qlt_shift_div_r; lra. }
  split; [exact Hfix|].
  intros lon. destruct (wrap_lon_range base period lon Hp) as [Hlo Hhi].
  by apply Hfix.
Qed.

Lemma wrap_lon_idempotent_witness :
  (wrap_lon (-180) 360 (wrap_lon (-180) 360 200) == wrap_lon (-180) 360 200)%Q.
Proof.
  destruct (wrap_lon_idempotent (-180) 360 eq_refl) as [_ Hidem]. apply Hidem.
Defined.

(** ** Array Segmenter: how many parts, and what they hold *)

Section SegmenterCount.
Context {A : Type} `{Coord A} {R : Type} (xy : R → A * A).

Lemma pieces_count (array : list R) :
  length (pieces xy array).1 = length (filter (λ r, is_sentinel xy r = true) array).
Proof.
  induction array as [|r array IH]; [done|]. simpl pieces.
  destruct (pieces xy array) as [ps final]. cbn [fst snd] in *.
  destruct (is_sentinel xy r) eqn:Hr.
  - rewrite filter_cons_True by done. simpl. by rewrite IH.
  - rewrite filter_cons_False by congruence.
    destruct ps as [|[run s] ps]; simpl in *; done.
Qed.

Lemma filter_sentinels_valid (array : list R) :
  Forall (λ r, is_sentinel xy r = false) array →
  filter (λ r, is_sentinel xy r = true) array = [].
Proof.
  induction 1 as [|r l Hr _ IH]; [done|]. by rewrite filter_cons_False by congruence.
Qed.

(** X4: the segmenter emits one part more than the array has sentinel rows,
    no emitted part holds a sentinel row, and an array without sentinel rows
    comes back as the single part equal to itself. *)
Theorem segments_count (array : list R) :
  length (segments xy array) = S (length (filter (λ r, is_sentinel xy r = true) array))
  ∧ Forall (Forall (λ r, is_sentinel xy r = false)) (segments xy array)
  ∧ (Forall (λ r, is_sentinel xy r = false) array → segments xy array = [array]).
Proof.
  rewrite segments_valid_runs. unfold valid_runs.
  destruct (pieces_rows xy array) as [Hps Hfinal].
  split; [|split].
  - rewrite length_app, length_fmap, pieces_count. simpl. lia.
  - rewrite Forall_app, Forall_singleton. split; [|done].
    rewrite Forall_fmap. eapply Forall_impl; [exact Hps|]. by intros p [Hrun _].
  - intros Hvalid. pose proof (pieces_count array) as Hcount.
    pose proof (closed_runs_concat xy array) as Hcat. unfold closed_runs in Hcat.
    rewrite filter_sentinels_valid in Hcount by done.
    destruct (pieces xy array).1; [|done]. simpl in *.
    rewrite app_nil_r in Hcat. by rewrite Hcat.
Qed.

Lemma pieces_app_valid (part rest : list R) :
  Forall (λ r, is_sentinel xy r = false) part →
  pieces xy (part ++ rest)
  = match pieces xy rest with
    | ([], final) => ([], part ++ final)
    | ((run, s) :: ps, final) => ((part ++ run, s) :: ps, final)
    end.
Proof.
  induction 1 as [|r part Hr _ IH]; simpl.
  - by destruct (pieces xy rest) as [[|[run s] ps] final].
  - rewrite IH, Hr. by destruct (pieces xy rest) as [[|[run s] ps] final].
Qed.

End SegmenterCount.

(** ** Round trips between the Array Recoverer and the Array Segmenter *)

Section RoundTrip.
Context {A : Type} `{Coord A}.

Lemma valid_runs_sentinel_join (parts : list (list (A * A))) :
  parts ≠ [] →
  Forall (Forall (λ r, is_sentinel id r = false)) parts →
  valid_runs id (sentinel_join parts) = parts.
Proof.
  intros Hne Hvalid. unfold valid_runs.
  induction Hvalid as [|part parts Hpart Hparts IH]; [done|].
  destruct parts as [|q parts].
  - simpl sentinel_join. rewrite <- (app_nil_r part) at 1 2.
    rewrite pieces_app_valid by done. simpl. by rewrite app_nil_r.
  - change (sentinel_join (part :: q :: parts))
      with (part ++ (NaN, NaN) :: sentinel_join (q :: parts)).
    specialize (IH ltac:(done)).
    remember (sentinel_join (q :: parts)) as joined eqn:Hj. clear Hj.
    rewrite pieces_app_valid by done.
    assert (pieces id ((NaN, NaN) :: joined)
            = (([], (NaN, NaN)) :: (pieces id joined).1, (pieces id joined).2)) as ->.
    { simpl. destruct (pieces id joined) as [ps final].
      assert (is_sentinel id ((NaN, NaN) : A * A) = true) as ->; [|done].
      unfold is_sentinel. simpl. by rewrite isnan_NaN. }
    cbn [fst snd fmap list_fmap app]. rewrite app_nil_r. by rewrite IH.
Qed.

(** X5: segmenting undoes the sentinel join.  For at least one part, none
    with a not-a-number coordinate, splitting the joined array at its
    sentinel rows gives back exactly the parts, empty ones included. *)
Theorem segments_sentinel_join (parts : list (list (A * A))) :
  parts ≠ [] →
  Forall (Forall (λ r, is_sentinel id r = false)) parts →
  segments id (sentinel_join parts) = parts.
Proof.
  intros Hne Hvalid. rewrite segments_valid_runs.
  by apply valid_runs_sentinel_join.
Qed.

End RoundTrip.

Lemma segments_sentinel_join_witness :
  segments id (sentinel_join [[(0, 0); (1, 1)]; []; [(2, 2)]]%float)
  = [[(0, 0); (1, 1)]; []; [(2, 2)]]%float.
Proof.
  apply segments_sentinel_join; [discriminate|]. repeat constructor.
Defined.

Section RecoverAssemble.
Context {A : Type} `{Coord A}.

Lemma column_stack_columns (array : list (A * A)) :
  column_stack array.*1 array.*2 = Ok array.
Proof.
  unfold column_stack. rewrite bool_decide_true by (by rewrite !length_fmap).
  by rewrite zip_fst_snd.
Qed.

Lemma pop_coordinates_array_feature (xname yname : string) (attrs : gmap string (pyval A))
    (array : list (A * A)) :
  xname ≠ yname → attrs !! xname = None → attrs !! yname = None →
  pop_coordinates xname yname (array_feature xname yname attrs array) = Ok (array, attrs).
Proof.
  intros Hxy Hx Hy. unfold pop_coordinates, array_feature, dict_pop.
  rewrite lookup_insert_eq. cbn [result_bind].
  rewrite delete_insert_eq, lookup_delete_ne, lookup_insert_eq by done.
  cbn [result_bind as_array]. rewrite column_stack_columns. cbn [result_bind].
  rewrite delete_delete, delete_insert_eq.
  by rewrite !delete_id by (by rewrite ?lookup_delete_ne).
Qed.

(** X6: a line geometry survives the way to an array and back.  For a
    MultiLineString of lines with at least two points and no not-a-number
    coordinate, [geom_to_array] succeeds, and [path_to_geom_dicts] on a
    feature holding the two columns of that array beside its attributes
    returns a single record with the attributes and the same geometry: the
    LineString itself for one line, the MultiLineString otherwise. *)
Theorem recover_then_assemble (css : list (list (A * A))) (attrs : gmap string (pyval A))
    (xname yname : string) :
  css ≠ [] →
  Forall (λ cs, 2 ≤ length cs ∧ Forall (λ r, is_sentinel id r = false) cs) css →
  xname ≠ yname → attrs !! xname = None → attrs !! yname = None →
  ∃ array,
    geom_to_array (MultiLineString (LineString <$> css)) = Ok array
    ∧ path_to_geom_dicts (columns_of xname yname [array_feature xname yname attrs array])
      = Ok [<["geometry" := VGeom (collapsed (LineString <$> css))]> attrs].
Proof.
  intros Hne Hcss Hxy Hx Hy. exists (sentinel_join css).
  assert (Forall (Forall (λ r, is_sentinel id r = false)) css) as Hvalid.
  { eapply Forall_impl; [exact Hcss|]. by intros cs [_ ?]. }
  split.
  - apply (geom_to_array_join _ (LineString <$> css)); try done.
    + by destruct css.
    + apply Forall2_fmap_l, Forall_Forall2_diag, Forall_forall.
      intros cs _. apply geom_to_arr_line.
  - unfold path_to_geom_dicts, columns_of. cbn [interface_datatype kdims split_columns].
    cbn [String.eqb Ascii.eqb Bool.eqb unpack2 result_bind enumerate enumerate_from foldlM].
    rewrite (path_dicts_feature_cases xname yname None [] 0 _ attrs (sentinel_join css))
      by (by apply pop_coordinates_array_feature).
    unfold column_lines. rewrite segments_valid_runs, valid_runs_sentinel_join by done.
    assert (filter (λ part : list (A * A), 2 ≤ length part) css = css) as ->.
    { clear Hne Hvalid. induction Hcss as [|cs css [Hlen _] _ IH]; [done|].
      rewrite filter_cons_True by done. by rewrite IH. }
    destruct css as [|cs [|cs' css]]; done.
Qed.

End RecoverAssemble.

Lemma recover_then_assemble_witness :
  ∃ array,
    geom_to_array (MultiLineString (LineString <$> [[(0, 0); (1, 1)]; [(2, 2); (3, 3)]]%float))
    = Ok array
    ∧ path_to_geom_dicts
        (columns_of "x" "y" [array_feature "x" "y" (<["name" := VAttr "a"]> ∅) array])
      = Ok [<["geometry" := VGeom (collapsed
                (LineString <$> [[(0, 0); (1, 1)]; [(2, 2); (3, 3)]]%float))]>
              (<["name" := VAttr "a"]> ∅)].
Proof.
  apply recover_then_assemble.
  - discriminate.
  - repeat constructor.
  - discriminate.
  - reflexivity.
  - reflexivity.
Defined.

(** ** Array Recoverer on single geometries *)

Section RecovererSingle.
Context {A : Type} `{Coord A}.


End RecovererSingle.

(** ** Polygon Builder *)

Section PolygonBuilder.
Context {A : Type} `{Coord A} (convex_hull : geometry A → geometry A).

Lemma polygon_to_geom_array_polys (skip_invalid : bool) (lines : list (geometry A))
    (path : list (A * A * list A)) :
  polygon_to_geom_array skip_invalid lines path = lines ++ array_polys skip_invalid path.
Proof.
  unfold polygon_to_geom_array, array_polys, segments.
  rewrite (foldl_append_ext _
    (λ ip, (λ part, if bool_decide (length part < 3) then
                      if skip_invalid then None else Some (LineString (fst <$> part))
                    else Some (Polygon (fst <$> part) []))
             (drop_nan (split_at_nans fst path) ip.1 ip.2))).
  - f_equal. induction (enumerate (split_at_nans fst path)) as [|ip l IH]; [done|].
    csimpl. rewrite IH. done.
  - intros acc ip. unfold polygon_to_geom_part. simpl.
    case_bool_decide; [by destruct skip_invalid|done].
Qed.


End PolygonBuilder.

(** ** [is_multi_geometry] *)

(** X9: [is_multi_geometry], a test on the name of the geometry type, holds
    exactly of the geometries that can be iterated over, the ones
    [geom_to_array] treats part by part. *)
Theorem is_multi_geometry_parts {A : Type} (geom : geometry A) :
  is_multi_geometry geom = true ↔ ∃ gs, iter_geom geom = Ok gs.
Proof.
  destruct geom; vm_compute; split; try discriminate; eauto.
  all: by intros [gs Hgs].
Qed.


(** ** Geometry-Dict Assemblers: outcomes, records and errors *)

Section AssemblerFacts.
Context {A : Type} `{Coord A}.

Lemma pop_coordinates_inv (xname yname : string) (d d' : gmap string (pyval A))
    (array : list (A * A)) :
  pop_coordinates xname yname d = Ok (array, d') →
  d' = delete yname (delete xname d).
Proof.
  unfold pop_coordinates, dict_pop. intros Hpop.
  destruct (d !! xname) as [vx|]; cbn [result_bind] in Hpop; [|done].
  destruct (delete xname d !! yname) as [vy|]; cbn [result_bind] in Hpop; [|done].
  destruct (as_array vx) as [xs|]; cbn [result_bind] in Hpop; [|done].
  destruct (as_array vy) as [ys|]; cbn [result_bind] in Hpop; [|done].
  destruct (column_stack xs ys) as [arr|]; cbn [result_bind] in Hpop; [|done].
  by injection Hpop as _ <-.
Qed.

Lemma path_dicts_loop_carried (xname yname : string) (geom : geometry A)
    (geoms : list (gmap string (pyval A))) (k : nat)
    (ds : list (gmap string (pyval A))) (fs : list (list (A * A) * gmap string (pyval A))) :
  Forall2 (λ d f, pop_coordinates xname yname d = Ok f) ds fs →
  ∃ geom', foldlM (path_dicts_feature xname yname) (Some geom, geoms) (enumerate_from k ds)
           = Ok (Some geom', geoms ++ carried geom fs).
Proof.
  intros Hpop. revert geom geoms k.
  induction Hpop as [|d [array d'] ds fs Hd _ IH]; intros geom geoms k.
  - exists geom. simpl. by rewrite app_nil_r.
  - cbn [enumerate_from foldlM carried fst snd].
    rewrite (path_dicts_feature_cases _ _ _ _ _ _ d' array) by done.
    destruct (column_lines array) as [|line [|line' lines]] eqn:Hlines;
      cbn [result_bind collapsed].
    + destruct (IH geom (geoms ++ [<["geometry" := VGeom geom]> d']) (S k)) as [g' ->].
      exists g'. by rewrite <- app_assoc.
    + destruct (IH line (geoms ++ [<["geometry" := VGeom line]> d']) (S k)) as [g' ->].
      exists g'. by rewrite <- app_assoc.
    + destruct (IH (MultiLineString (line :: line' :: lines))
                  (geoms ++ [<["geometry" := VGeom (MultiLineString (line :: line' :: lines))]> d'])
                  (S k)) as [g' ->].
      exists g'. by rewrite <- app_assoc.
Qed.

(** X10: what [path_to_geom_dicts] does on a columnar element with sound
    coordinate columns.  Without features the result is empty.  When the
    first feature has no valid line the call raises UnboundLocalError.
    Otherwise it returns one record per feature, in order, where a feature
    with valid lines stores their collapse (the LineString, or the
    MultiLineString of several) and a feature without any stores the
    geometry of the nearest earlier feature that has one.  When every
    feature has a valid line, every record holds its own geometry. *)
Theorem path_to_geom_dicts_outcome (path : element A) (xdim ydim : string)
    (fs : list (list (A * A) * gmap string (pyval A))) :
  interface_datatype path ≠ "geodataframe" →
  interface_datatype path ≠ "geom_dictionary" →
  kdims path = [xdim; ydim] →
  Forall2 (λ d f, pop_coordinates xdim ydim d = Ok f) (split_columns path) fs →
  match fs with
  | [] => path_to_geom_dicts path = Ok []
  | f :: _ =>
      match column_lines f.1 with
      | [] => path_to_geom_dicts path = Raise (UnboundLocalError "geom")
      | lines => path_to_geom_dicts path = Ok (carried (collapsed lines) fs)
      end
  end
  ∧ (Forall (λ f, column_lines f.1 ≠ []) fs →
     path_to_geom_dicts path
     = Ok ((λ f, <["geometry" := VGeom (collapsed (column_lines f.1))]> f.2) <$> fs)).
Proof.
  intros Hgdf Hgd Hk Hpop.
  assert (path_to_geom_dicts path
          = (st <- foldlM (path_dicts_feature xdim ydim) (None, [])
                          (enumerate (split_columns path)); Ok st.2)) as Hunfold.
  { unfold path_to_geom_dicts.
    destruct (String.eqb_spec (interface_datatype path) "geodataframe"); [done|].
    destruct (String.eqb_spec (interface_datatype path) "geom_dictionary"); [done|].
    by rewrite Hk. }
  assert (match fs with
          | [] => path_to_geom_dicts path = Ok []
          | f :: _ =>
              match column_lines f.1 with
              | [] => path_to_geom_dicts path = Raise (UnboundLocalError "geom")
              | lines => path_to_geom_dicts path = Ok (carried (collapsed lines) fs)
              end
          end) as Hfirst.
  { rewrite Hunfold. unfold enumerate.
    destruct Hpop as [|d [array d'] ds fs Hd Hrest]; [done|].
    cbn [enumerate_from foldlM fst].
    rewrite (path_dicts_feature_cases _ _ _ _ _ _ d' array) by done.
    destruct (column_lines array) as [|line [|line' lines]] eqn:Hlines;
      cbn [result_bind]; [done| |].
    - destruct (path_dicts_loop_carried xdim ydim line
                  ([] ++ [<["geometry" := VGeom line]> d']) 1 ds fs Hrest) as [g' ->].
      cbn [result_bind snd carried fst collapsed]. by rewrite Hlines.
    - destruct (path_dicts_loop_carried xdim ydim (MultiLineString (line :: line' :: lines))
                  ([] ++ [<["geometry" := VGeom (MultiLineString (line :: line' :: lines))]> d'])
                  1 ds fs Hrest) as [g' ->].
      cbn [result_bind snd carried fst collapsed]. by rewrite Hlines. }
  split; [exact Hfirst|].
  intros Hall. clear Hunfold Hpop.
  assert (∀ g, carried g fs
               = (λ f, <["geometry" := VGeom (collapsed (column_lines f.1))]> f.2) <$> fs)
    as Hcarried.
  { clear Hfirst. induction Hall as [|f fs Hf _ IH]; intros g; [done|].
    cbn [carried fmap list_fmap]. destruct (column_lines f.1) as [|l ls] eqn:Hl; [done|].
    by rewrite IH. }
  destruct fs as [|f fs]; [done|].
  inversion Hall as [|? ? Hf _]; subst.
  destruct (column_lines f.1) as [|l ls] eqn:Hl; [done|].
  rewrite Hfirst. by rewrite Hcarried.
Qed.

(** X11: whenever [path_to_geom_dicts] returns from a columnar element, it
    returns one record per feature, in order, and each record is its
    feature's dictionary with the two coordinate columns removed and the
    key [geometry] set: every other column is there with its value. *)
Theorem path_to_geom_dicts_records (path : element A) (xdim ydim : string)
    (recs : list (gmap string (pyval A))) :
  interface_datatype path ≠ "geodataframe" →
  interface_datatype path ≠ "geom_dictionary" →
  kdims path = [xdim; ydim] →
  path_to_geom_dicts path = Ok recs →
  Forall2 (record_of xdim ydim) (split_columns path) recs.
Proof.
  intros Hgdf Hgd Hk. unfold path_to_geom_dicts.
  destruct (String.eqb_spec (interface_datatype path) "geodataframe"); [done|].
  destruct (String.eqb_spec (interface_datatype path) "geom_dictionary"); [done|].
  rewrite Hk. cbn [unpack2 result_bind]. unfold enumerate.
  assert (∀ ds k geom geoms st,
            foldlM (path_dicts_feature xdim ydim) (geom, geoms) (enumerate_from k ds) = Ok st →
            ∃ new, st.2 = geoms ++ new ∧ Forall2 (record_of xdim ydim) ds new) as Hloop.
  { induction ds as [|d ds IH]; intros k geom geoms st Hst.
    - injection Hst as <-. exists []. by rewrite app_nil_r.
    - cbn [enumerate_from foldlM] in Hst.
      destruct (pop_coordinates xdim ydim d) as [[array d']|e] eqn:Hpop.
      2:{ unfold path_dicts_feature in Hst. cbn [snd] in Hst. by rewrite Hpop in Hst. }
      rewrite (path_dicts_feature_cases _ _ _ _ _ _ d' array) in Hst by done.
      apply pop_coordinates_inv in Hpop as ->.
      destruct (column_lines array) as [|line [|line' lines]];
        [destruct geom as [g|]; [|done]| |]; cbn [result_bind] in Hst;
        apply IH in Hst as (new & -> & Hnew);
        (eexists (_ :: new); split; [by rewrite <- app_assoc|];
         constructor; [by eexists|done]). }
  intros Hres.
  destruct (foldlM _ _ _) as [st|e] eqn:Hst; cbn [result_bind] in Hres; [|done].
  injection Hres as <-. apply Hloop in Hst as (new & -> & Hnew). done.
Qed.

Lemma polygons_body_no_holes (skip_invalid no_splits : bool)
    (subholes : list (list (geometry A))) (invalid : bool) (subpolys : list (geometry A))
    (j : nat) (part : list (A * A)) :
  polygons_body skip_invalid false no_splits subholes (invalid, subpolys) (j, part)
  = Ok (invalid || negb skip_invalid && bool_decide (length part < 3),
        subpolys ++ option_list (positional_poly skip_invalid [] (j, part))).
Proof.
  unfold polygons_body, positional_poly. simpl.
  case_bool_decide as Hlen.
  - destruct skip_invalid; simpl.
    + by rewrite orb_false_r, app_nil_r.
    + by rewrite orb_true_r.
  - rewrite andb_false_r, orb_false_r. by destruct no_splits.
Qed.

Lemma polygons_parts_no_holes (skip_invalid no_splits : bool)
    (subholes : list (list (geometry A))) (parts : list (nat * list (A * A)))
    (invalid : bool) (subpolys : list (geometry A)) :
  foldlM (polygons_body skip_invalid false no_splits subholes) (invalid, subpolys) parts
  = Ok (invalid || negb skip_invalid && bool_decide (Exists (λ jp, length jp.2 < 3) parts),
        subpolys ++ omap (positional_poly skip_invalid []) parts).
Proof.
  revert invalid subpolys.
  induction parts as [|[j part] parts IH]; intros invalid subpolys.
  - simpl. by rewrite andb_false_r, orb_false_r, app_nil_r.
  - cbn [foldlM]. rewrite polygons_body_no_holes.
    cbn [result_bind]. rewrite IH. f_equal. f_equal.
    + rewrite <- orb_assoc. f_equal. rewrite <- andb_orb_distrib_r. f_equal.
      destruct (bool_decide (length part < 3)) eqn:Hlen.
      * simpl. apply bool_decide_eq_true in Hlen. symmetry.
        apply bool_decide_eq_true. by left.
      * simpl. apply bool_decide_eq_false in Hlen.
        apply bool_decide_ext. rewrite Exists_cons. simpl. tauto.
    + rewrite <- app_assoc. f_equal. csimpl.
      by destruct (positional_poly skip_invalid [] (j, part)).
Qed.

Lemma degraded_enumerate (skip_invalid : bool) (array : list (A * A)) :
  negb skip_invalid
  && bool_decide (Exists (λ jp : nat * list (A * A), length jp.2 < 3)
                         (enumerate (segments id array)))
  = degraded skip_invalid array.
Proof.
  unfold degraded, enumerate. f_equal.
  apply bool_decide_ext. rewrite !Exists_exists. split.
  - intros ([j part] & Hin & Hshort). exists part. split; [|done].
    apply list_elem_of_lookup in Hin as [k Hk].
    rewrite enumerate_from_lookup in Hk.
    destruct (segments id array !! k) eqn:Hseg; simplify_eq/=.
    by eapply list_elem_of_lookup_2.
  - intros (part & Hin & Hshort).
    apply list_elem_of_lookup in Hin as [k Hk].
    exists (k, part). split; [|done].
    apply list_elem_of_lookup. exists k. rewrite enumerate_from_lookup, Hk. done.
Qed.

Lemma polygons_subpolys_no_holes (skip_invalid : bool)
    (holes : list (list (list (list (A * A))))) (i : nat) (array : list (A * A)) :
  polygons_subpolys skip_invalid false holes i array
  = Ok (degraded skip_invalid array, positional_polys skip_invalid [] array).
Proof.
  unfold polygons_subpolys. cbn [result_bind]. unfold polygons_part.
  rewrite <- (foldlM_fmap _
    (λ ja : nat * list (A * A), (ja.1, drop_nan (split_at_nans id array) ja.1 ja.2))).
  unfold enumerate.
  rewrite <- (enumerate_from_fmap (drop_nan (split_at_nans id array))).
  fold (enumerate (split_at_nans id array)). fold (segments id array).
  rewrite polygons_parts_no_holes. cbn [orb app].
  fold (enumerate (segments id array)). by rewrite degraded_enumerate.
Qed.

Lemma polygons_feature_no_holes (skip_invalid : bool)
    (holes : list (list (list (list (A * A))))) (xname yname : string)
    (polys : list (gmap string (pyval A))) (i : nat)
    (d polygon : gmap string (pyval A)) (array : list (A * A)) :
  pop_coordinates xname yname d = Ok (array, polygon) →
  polygons_feature skip_invalid false holes xname yname polys (i, d)
  = Ok (polys ++ feature_records (degraded skip_invalid array)
                   (positional_polys skip_invalid [] array) polygon).
Proof.
  intros Hpop. unfold polygons_feature. simpl. rewrite Hpop. simpl.
  rewrite polygons_subpolys_no_holes. simpl.
  unfold feature_records. destruct (degraded skip_invalid array); [done|].
  destruct (positional_polys skip_invalid [] array) as [|g [|g' gs]]; simpl.
  - by rewrite app_nil_r.
  - done.
  - done.
Qed.

Lemma polygons_features_no_holes (skip_invalid : bool) (xname yname : string)
    (holes : list (list (list (list (A * A))))) (k : nat)
    (ds : list (gmap string (pyval A))) (fs : list (list (A * A) * gmap string (pyval A)))
    (polys : list (gmap string (pyval A))) :
  Forall2 (λ d f, pop_coordinates xname yname d = Ok f) ds fs →
  foldlM (polygons_feature skip_invalid false holes xname yname) polys (enumerate_from k ds)
  = Ok (polys ++ (fs ≫= λ f, feature_records (degraded skip_invalid f.1)
                               (positional_polys skip_invalid [] f.1) f.2)).
Proof.
  intros Hpop. revert k polys.
  induction Hpop as [|d [array polygon] ds fs Hd _ IH]; intros k polys.
  - simpl. by rewrite app_nil_r.
  - cbn [enumerate_from foldlM].
    rewrite (polygons_feature_no_holes _ _ _ _ _ _ _ polygon array) by done.
    cbn [result_bind]. rewrite IH. csimpl. by rewrite <- app_assoc.
Qed.

(** X12: [polygons_to_geom_dicts] on a columnar element without holes and
    with sound coordinate columns always returns (the geometry constructors
    taken to accept every coordinate list).  Each feature contributes,
    in order: nothing when it has no part left, one record per part when a
    part of fewer than three vertices was kept as a line, one record with
    the polygon when one part is left, and one record with the MultiPolygon
    of the parts otherwise.  With [skip_invalid] a feature whose parts all
    have fewer than three vertices contributes no record, and every part
    that is kept is either a polygon of at least three vertices and no
    interior, or (only without [skip_invalid]) a line of fewer than three. *)
Theorem polygons_to_geom_dicts_no_holes (polygons : element A) (skip_invalid : bool)
    (xdim ydim : string) (fs : list (list (A * A) * gmap string (pyval A))) :
  interface_datatype polygons ≠ "geodataframe" →
  interface_datatype polygons ≠ "geom_dictionary" →
  kdims polygons = [xdim; ydim] →
  has_holes polygons = false →
  Forall2 (λ d f, pop_coordinates xdim ydim d = Ok f) (split_columns polygons) fs →
  polygons_to_geom_dicts polygons skip_invalid
  = Ok (fs ≫= λ f, feature_records (degraded skip_invalid f.1)
                     (positional_polys skip_invalid [] f.1) f.2)
  ∧ (∀ (array : list (A * A)) (polygon : gmap string (pyval A)),
       Forall (λ part, length part < 3) (segments id array) →
       feature_records (degraded true array) (positional_polys true [] array) polygon = [])
  ∧ (∀ (array : list (A * A)) g,
       g ∈ positional_polys skip_invalid [] array →
       (∃ part, g = Polygon part [] ∧ 3 ≤ length part)
       ∨ (∃ part, g = LineString part ∧ length part < 3 ∧ skip_invalid = false)).
Proof.
  intros Hgdf Hgd Hk Hh Hpop. split; [|split].
  - unfold polygons_to_geom_dicts.
    destruct (String.eqb_spec (interface_datatype polygons) "geodataframe"); [done|].
    destruct (String.eqb_spec (interface_datatype polygons) "geom_dictionary"); [done|].
    rewrite Hk, Hh. cbn [unpack2 result_bind]. unfold enumerate.
    by rewrite (polygons_features_no_holes _ _ _ _ _ _ fs).
  - intros array polygon Hshort. unfold feature_records, degraded. cbn [negb andb].
    assert (positional_polys true [] array = []) as ->; [|done].
    unfold positional_polys, enumerate. generalize 0.
    induction Hshort as [|part parts Hpart _ IH]; intros k; [done|].
    cbn [enumerate_from]. csimpl. unfold positional_poly at 1. cbn [fst snd].
    rewrite bool_decide_true by done. apply IH.
  - intros array g Hg. unfold positional_polys in Hg.
    apply list_elem_of_omap in Hg as ([j part] & _ & Hg).
    unfold positional_poly in Hg. cbn [fst snd] in Hg.
    case_bool_decide as Hlen.
    + destruct skip_invalid; [done|]. injection Hg as <-. right. by exists part.
    + injection Hg as <-. left. exists part. split; [done|lia].
Qed.

(** X13: whenever [polygons_to_geom_dicts] returns from a columnar element,
    with or without holes, every record is the dictionary of one of the
    element's features with the two coordinate columns removed and the key
    [geometry] set. *)
Theorem polygons_to_geom_dicts_records (polygons : element A) (skip_invalid : bool)
    (xdim ydim : string) (recs : list (gmap string (pyval A))) :
  interface_datatype polygons ≠ "geodataframe" →
  interface_datatype polygons ≠ "geom_dictionary" →
  kdims polygons = [xdim; ydim] →
  polygons_to_geom_dicts polygons skip_invalid = Ok recs →
  Forall (λ rec, ∃ d, d ∈ split_columns polygons ∧ record_of xdim ydim d rec) recs.
Proof.
  intros Hgdf Hgd Hk. unfold polygons_to_geom_dicts.
  destruct (String.eqb_spec (interface_datatype polygons) "geodataframe"); [done|].
  destruct (String.eqb_spec (interface_datatype polygons) "geom_dictionary"); [done|].
  rewrite Hk. cbn [unpack2 result_bind]. unfold enumerate. generalize 0.
  assert (∀ ds k polys out,
            foldlM (polygons_feature skip_invalid (has_holes polygons) (holes polygons)
                      xdim ydim) polys (enumerate_from k ds) = Ok out →
            ∃ new, out = polys ++ new
                   ∧ Forall (λ rec, ∃ d, d ∈ ds ∧ record_of xdim ydim d rec) new) as Hloop.
  { induction ds as [|d ds IH]; intros k polys out Hout.
    - injection Hout as <-. exists []. by rewrite app_nil_r.
    - cbn [enumerate_from foldlM] in Hout.
      destruct (polygons_feature _ _ _ _ _ polys (k, d)) as [polys'|e] eqn:Hstep;
        cbn [result_bind] in Hout; [|done].
      apply IH in Hout as (new & -> & Hnew).
      assert (∃ new0, polys' = polys ++ new0
                      ∧ Forall (record_of xdim ydim d) new0) as (new0 & -> & Hnew0).
      { unfold polygons_feature in Hstep. cbn [snd fst] in Hstep.
        destruct (pop_coordinates xdim ydim d) as [[array d']|e] eqn:Hpop;
          cbn [result_bind] in Hstep; [|done].
        apply pop_coordinates_inv in Hpop as ->.
        destruct (polygons_subpolys _ _ _ _ _) as [[invalid subpolys]|e];
          cbn [result_bind] in Hstep; [|done].
        destruct invalid.
        - injection Hstep as <-. eexists. split; [done|].
          rewrite Forall_fmap. apply Forall_forall. intros sp _. by eexists.
        - case_bool_decide.
          + destruct (py_index subpolys 0) as [g|e]; cbn [result_bind] in Hstep; [|done].
            injection Hstep as <-. eexists. split; [done|].
            constructor; [by eexists|done].
          + case_bool_decide.
            * injection Hstep as <-. eexists. split; [done|].
              constructor; [by eexists|done].
            * injection Hstep as <-. exists []. by rewrite app_nil_r. }
      exists (new0 ++ new). split; [by rewrite app_assoc|].
      rewrite Forall_app. split.
      + eapply Forall_impl; [exact Hnew0|]. intros rec Hrec. exists d.
        split; [by left|done].
      + eapply Forall_impl; [exact Hnew|]. intros rec (d0 & Hd0 & Hrec). exists d0.
        split; [by right|done]. }
  intros k Hres. apply Hloop in Hres as (new & -> & Hnew). done.
Qed.

(** X14: both assemblers pop the coordinate columns of the first feature
    before anything else: on a columnar element whose first feature lacks
    the first key dimension they raise KeyError for it, and when only the
    second is lacking they raise KeyError for the second. *)
Theorem assemblers_missing_column (path : element A) (skip_invalid : bool)
    (xdim ydim : string) (d : gmap string (pyval A)) (ds : list (gmap string (pyval A))) :
  interface_datatype path ≠ "geodataframe" →
  interface_datatype path ≠ "geom_dictionary" →
  kdims path = [xdim; ydim] →
  split_columns path = d :: ds →
  (d !! xdim = None →
     path_to_geom_dicts path = Raise (KeyError xdim)
     ∧ polygons_to_geom_dicts path skip_invalid = Raise (KeyError xdim))
  ∧ (is_Some (d !! xdim) → delete xdim d !! ydim = None →
       path_to_geom_dicts path = Raise (KeyError ydim)
       ∧ polygons_to_geom_dicts path skip_invalid = Raise (KeyError ydim)).
Proof.
  intros Hgdf Hgd Hk Hds.
  unfold path_to_geom_dicts, polygons_to_geom_dicts.
  destruct (String.eqb_spec (interface_datatype path) "geodataframe"); [done|].
  destruct (String.eqb_spec (interface_datatype path) "geom_dictionary"); [done|].
  rewrite Hk, Hds. cbn [unpack2 result_bind enumerate enumerate_from foldlM].
  unfold path_dicts_feature, polygons_feature, pop_coordinates, dict_pop. cbn [snd].
  split.
  - intros ->. by cbn [result_bind].
  - intros [v ->] Hy. cbn [result_bind]. by rewrite Hy.
Qed.

End AssemblerFacts.

(** X10 witness: a two-point feature followed by a single-point feature. *)
Lemma path_to_geom_dicts_outcome_witness :
  path_to_geom_dicts path_line_then_point
  = Ok (carried (LineString [(0, 0); (1, 1)]%float)
          [([(0, 0); (1, 1)]%float, <["name" := VAttr "a"]> (∅ : gmap string (pyval float)));
           ([(5, 5)]%float, <["name" := VAttr "b"]> ∅)]).
Proof.
  destruct (path_to_geom_dicts_outcome path_line_then_point "x" "y"
              [([(0, 0); (1, 1)]%float, <["name" := VAttr "a"]> (∅ : gmap string (pyval float)));
               ([(5, 5)]%float, <["name" := VAttr "b"]> ∅)])
    as [Hres _].
  - vm_compute. discriminate.
  - vm_compute. discriminate.
  - reflexivity.
  - constructor; [|constructor; [|constructor]]; vm_compute; reflexivity.
  - exact Hres.
Defined.

(** X11 witness: the same element; both records keep the column [name]. *)
Lemma path_to_geom_dicts_records_witness :
  Forall2 (record_of "x" "y") (split_columns path_line_then_point)
    [<["geometry" := VGeom (LineString [(0, 0); (1, 1)]%float)]>
       (<["name" := VAttr "a"]> (∅ : gmap string (pyval float)));
     <["geometry" := VGeom (LineString [(0, 0); (1, 1)]%float)]>
       (<["name" := VAttr "b"]> ∅)].
Proof.
  apply (path_to_geom_dicts_records path_line_then_point "x" "y").
  - vm_compute. discriminate.
  - vm_compute. discriminate.
  - reflexivity.
  - vm_compute. reflexivity.
Defined.

(** X12 witness: one feature with one ring and no holes. *)
Lemma polygons_to_geom_dicts_no_holes_witness :
  polygons_to_geom_dicts (columns_element [feature ring_a.*1 ring_a.*2 "a"]) true
  = Ok [<["geometry" := VGeom (Polygon ring_a [])]>
          (<["name" := VAttr "a"]> (∅ : gmap string (pyval float)))].
Proof.
  destruct (polygons_to_geom_dicts_no_holes
              (columns_element [feature ring_a.*1 ring_a.*2 "a"]) true "x" "y"
              [(ring_a, <["name" := VAttr "a"]> (∅ : gmap string (pyval float)))])
    as [Hres _].
  - vm_compute. discriminate.
  - vm_compute. discriminate.
  - reflexivity.
  - reflexivity.
  - constructor; [|constructor]. vm_compute. reflexivity.
  - rewrite Hres. vm_compute. reflexivity.
Defined.

(** X13 witness: the feature of two rings with holes. *)
Lemma polygons_to_geom_dicts_records_witness :
  Forall (λ rec, ∃ d, d ∈ split_columns two_rings ∧ record_of "x" "y" d rec)
    [<["geometry" := VGeom (MultiPolygon [Polygon ring_a [hole_a]; Polygon ring_b []])]>
       (<["name" := VAttr "a"]> (∅ : gmap string (pyval float)))].
Proof.
  apply (polygons_to_geom_dicts_records two_rings true "x" "y").
  - vm_compute. discriminate.
  - vm_compute. discriminate.
  - reflexivity.
  - vm_compute. reflexivity.
Defined.

(** X14 witness: a feature with a [y] column only. *)
Lemma assemblers_missing_column_witness :
  path_to_geom_dicts (columns_element [<["y" := VArray [1%float]]> ∅])
  = Raise (KeyError "x")
  ∧ polygons_to_geom_dicts (columns_element [<["y" := VArray [1%float]]> ∅]) true
    = Raise (KeyError "x").
Proof.
  destruct (assemblers_missing_column
              (columns_element [<["y" := VArray [1%float]]> ∅]) true "x" "y"
              (<["y" := VArray [1%float]]> ∅) []) as [Hx _].
  - vm_compute. discriminate.
  - vm_compute. discriminate.
  - reflexivity.
  - reflexivity.
  - apply Hx. vm_compute. reflexivity.
Defined.

(** ** Proj-String Parser: what it passes on, and how it fails *)

Section ParserFacts.
Context {N : Type} (py_float : string → option N).
Context (pyproj_Proj pyproj_Proj_init : crs_arg → result Proj).
Context (osr_export : option (string → string)).

(** X15: [check_crs] hands a Proj object back as it is, answers None for
    anything that is not a Proj, a string or a dict, and never raises
    RuntimeError.  For a string or dict it answers None only when both
    constructions of the projection library raised RuntimeError. *)
Theorem check_crs_never_runtime_error :
  (∀ p, check_crs pyproj_Proj pyproj_Proj_init (AProj p) = Ok (Some p))
  ∧ check_crs pyproj_Proj pyproj_Proj_init AOther = Ok None
  ∧ (∀ crs msg, check_crs pyproj_Proj pyproj_Proj_init crs ≠ Raise (RuntimeError msg))
  ∧ (∀ crs, check_crs pyproj_Proj pyproj_Proj_init crs = Ok None →
       crs = AOther
       ∨ (∃ msg, pyproj_Proj crs = Raise (RuntimeError msg))
         ∧ (∃ msg, pyproj_Proj_init crs = Raise (RuntimeError msg))).
Proof.
  split; [done|]. split; [done|]. split.
  - intros crs msg. unfold check_crs.
    destruct crs as [p|s|d|]; try done.
    all: destruct (pyproj_Proj _) as [out|[]]; try done.
    all: destruct (pyproj_Proj_init _) as [out|[]]; done.
  - intros crs. unfold check_crs.
    destruct crs as [p|s|d|]; try done; [| |by left].
    all: destruct (pyproj_Proj _) as [out|[]] eqn:H1; try done.
    all: destruct (pyproj_Proj_init _) as [out|[]] eqn:H2; try done.
    all: intros _; right; eauto.
Qed.

Lemma collect_lookup (km : gmap string string) (k name : string) (v : kwval N)
    (kw : gmap string (kwval N)) :
  is_Some (collect km k v kw !! name) ↔ is_Some (kw !! name) ∨ km !! k = Some name.
Proof.
  unfold collect. destruct (km !! k) as [n|] eqn:Hk.
  - destruct (decide (n = name)) as [->|Hne].
    + rewrite lookup_insert_eq. split; [by right|by eexists].
    + rewrite lookup_insert_ne by done. split; [by left|].
      intros [?|?]; [done|congruence].
  - split; [by left|]. by intros [?|?].
Qed.

Lemma collected_lookup (get : parser_state N → gmap string (kwval N))
    (km : gmap string string) (toks : list string) (st : parser_state N) (name : string) :
  (∀ st s,
     get (parse_token py_float st s)
     = match token_pair s with
       | Some (k, v) => collect km k (parse_value py_float v) (get st)
       | None => get st
       end) →
  is_Some (get (foldl (parse_token py_float) st toks) !! name)
  ↔ is_Some (get st !! name) ∨ ∃ k v, (k, v) ∈ omap token_pair toks ∧ km !! k = Some name.
Proof.
  intros get_token. revert st. induction toks as [|s toks IH]; intros st.
  - simpl. split; [by left|]. intros [?|(k & v & Hin & _)]; [done|].
    by apply elem_of_nil in Hin.
  - cbn [foldl]. rewrite IH, get_token. csimpl.
    destruct (token_pair s) as [[k v]|]; [|done].
    rewrite collect_lookup. split.
    + intros [[?|Hk]|(k' & v' & Hin & Hk')].
      * by left.
      * right. exists k, v. split; [by left|done].
      * right. exists k', v'. split; [by right|done].
    + intros [?|(k' & v' & Hin & Hk')]; [by left; left|].
      apply elem_of_cons in Hin as [Heq|Hin].
      * injection Heq as -> ->. by left; right.
      * right. eauto.
Qed.

Lemma kw_proj_token (st : parser_state N) (s : string) :
  kw_proj (parse_token py_float st s)
  = match token_pair s with
    | Some (k, v) => collect km_proj k (parse_value py_float v) (kw_proj st)
    | None => kw_proj st
    end.
Proof.
  unfold token_pair, parse_token. by destruct (str_split "=" s) as [|k [|v [|w l]]].
Qed.

Lemma kw_globe_token (st : parser_state N) (s : string) :
  kw_globe (parse_token py_float st s)
  = match token_pair s with
    | Some (k, v) => collect km_globe k (parse_value py_float v) (kw_globe st)
    | None => kw_globe st
    end.
Proof.
  unfold token_pair, parse_token. by destruct (str_split "=" s) as [|k [|v [|w l]]].
Qed.

Lemma kw_std_token (st : parser_state N) (s : string) :
  kw_std (parse_token py_float st s)
  = match token_pair s with
    | Some (k, v) => collect km_std k (parse_value py_float v) (kw_std st)
    | None => kw_std st
    end.
Proof.
  unfold token_pair, parse_token. by destruct (str_split "=" s) as [|k [|v [|w l]]].
Qed.

Lemma kw_is_parse_value (v code : string) :
  kw_is (parse_value py_float v) code = true ↔ py_float v = None ∧ v = code.
Proof.
  unfold parse_value. destruct (py_float v); simpl.
  - split; [done|]. by intros [? _].
  - rewrite String.eqb_eq. tauto.
Qed.

Lemma cl_token (st : parser_state N) (s : string) (c : proj_class) :
  cl (parse_token py_float st s) = Some c →
  cl st = Some c
  ∨ token_pair s = Some ("proj", proj_code c) ∧ py_float (proj_code c) = None.
Proof.
  unfold token_pair, parse_token.
  destruct (str_split "=" s) as [|k [|v [|w l]]]; try by left.
  cbn [cl]. destruct (String.eqb_spec (str_strip k) "proj") as [->|_]; [|by left].
  destruct (kw_is (parse_value py_float (str_strip v)) "utm") eqn:Hutm.
  { apply kw_is_parse_value in Hutm as [Hf Hv]. intros [= <-]. right. by rewrite Hv in *. }
  destruct (kw_is (parse_value py_float (str_strip v)) "merc") eqn:Hmerc.
  { apply kw_is_parse_value in Hmerc as [Hf Hv]. intros [= <-]. right. by rewrite Hv in *. }
  destruct (kw_is (parse_value py_float (str_strip v)) "lcc") eqn:Hlcc.
  { apply kw_is_parse_value in Hlcc as [Hf Hv]. intros [= <-]. right. by rewrite Hv in *. }
  destruct (kw_is (parse_value py_float (str_strip v)) "tmerc") eqn:Htmerc.
  { apply kw_is_parse_value in Htmerc as [Hf Hv]. intros [= <-]. right. by rewrite Hv in *. }
  by left.
Qed.

Lemma cl_tokens (toks : list string) (st : parser_state N) (c : proj_class) :
  cl (foldl (parse_token py_float) st toks) = Some c →
  cl st = Some c
  ∨ ("proj", proj_code c) ∈ omap token_pair toks ∧ py_float (proj_code c) = None.
Proof.
  revert st. induction toks as [|s toks IH]; intros st; [by left|].
  cbn [foldl]. intros Hc. apply IH in Hc as [Hc|[Hin Hf]].
  - apply cl_token in Hc as [Hc|[Hs Hf]]; [by left|].
    right. split; [|done]. csimpl. rewrite Hs. by left.
  - right. split; [|done]. csimpl. destruct (token_pair s); [by right|done].
Qed.

Lemma km_proj_names (k name : string) : km_proj !! k = Some name → name ∈ proj_keywords.
Proof.
  assert (map_Forall (λ _ name, name ∈ proj_keywords) km_proj) as Hall.
  { apply (bool_decide_unpack _). by vm_compute. }
  intros Hk. exact (Hall k name Hk).
Qed.

Lemma km_globe_names (k name : string) : km_globe !! k = Some name → name ∈ globe_keywords.
Proof.
  assert (map_Forall (λ _ name, name ∈ globe_keywords) km_globe) as Hall.
  { apply (bool_decide_unpack _). by vm_compute. }
  intros Hk. exact (Hall k name Hk).
Qed.

Lemma km_std_names (k name : string) :
  km_std !! k = Some name ↔ k = name ∧ (name = "lat_1" ∨ name = "lat_2").
Proof.
  unfold km_std. cbn [list_to_map foldr uncurry fst snd].
  destruct (decide (k = "lat_1")) as [->|H1].
  { rewrite lookup_insert_eq. split; [intros [= <-]; by eauto|by intros [<- _]]. }
  rewrite lookup_insert_ne by done.
  destruct (decide (k = "lat_2")) as [->|H2].
  { rewrite lookup_insert_eq. split; [intros [= <-]; by eauto|by intros [<- _]]. }
  rewrite lookup_insert_ne, lookup_empty by done.
  split; [done|]. intros [-> [->| ->]]; done.
Qed.

Lemma km_globe_keys (k name : string) :
  km_globe !! k = Some name → k = "a" ∨ k = "b".
Proof.
  unfold km_globe. cbn [list_to_map foldr uncurry fst snd].
  destruct (decide (k = "a")) as [->|H1]; [by left|].
  rewrite lookup_insert_ne by done.
  destruct (decide (k = "b")) as [->|H2]; [by right|].
  by rewrite lookup_insert_ne, lookup_empty.
Qed.

Lemma elem_of_keys (k : string) (kvs : list (string * string)) :
  k ∈ kvs.*1 ↔ ∃ v, (k, v) ∈ kvs.
Proof.
  rewrite list_elem_of_fmap. split.
  - intros ([k' v] & -> & Hin). by exists v.
  - intros [v Hin]. by exists (k, v).
Qed.

Lemma parse_srs_std (srs name : string) :
  is_Some (kw_std (parse_srs py_float srs) !! name)
  ↔ name ∈ (srs_tokens srs).*1 ∧ (name = "lat_1" ∨ name = "lat_2").
Proof.
  unfold parse_srs. rewrite (collected_lookup kw_std km_std) by apply kw_std_token. cbn [kw_std].
  rewrite lookup_empty, elem_of_keys. fold (srs_tokens srs). split.
  - intros [[? [=]]|(k & v & Hin & Hk)].
    apply km_std_names in Hk as [-> Hname]. eauto.
  - intros [[v Hin] Hname]. right. exists name, v. split; [done|].
    by apply km_std_names.
Qed.

Lemma parse_srs_std_size (srs : string) :
  size (kw_std (parse_srs py_float srs)) ≠ 0
  ↔ "lat_1" ∈ (srs_tokens srs).*1 ∨ "lat_2" ∈ (srs_tokens srs).*1.
Proof.
  rewrite map_size_ne_0_lookup. split.
  - intros [name Hname]. apply parse_srs_std in Hname as [Hin [-> | ->]]; eauto.
  - intros [Hin|Hin].
    + exists "lat_1". apply parse_srs_std. eauto.
    + exists "lat_2". apply parse_srs_std. eauto.
Qed.

Lemma parse_srs_globe_size (srs : string) :
  size (kw_globe (parse_srs py_float srs)) ≠ 0
  ↔ "a" ∈ (srs_tokens srs).*1 ∨ "b" ∈ (srs_tokens srs).*1.
Proof.
  rewrite map_size_ne_0_lookup. split.
  - intros [name Hname]. unfold parse_srs in Hname.
    apply (collected_lookup kw_globe km_globe) in Hname
      as [[? [=]]|(k & v & Hin & Hk)]; [|apply kw_globe_token].
    fold (srs_tokens srs) in Hin.
    apply km_globe_keys in Hk as [-> | ->]; [left|right]; apply elem_of_keys; eauto.
  - intros Hin. unfold parse_srs.
    destruct Hin as [Hin|Hin]; apply elem_of_keys in Hin as [v Hin].
    + exists "semimajor_axis".
      apply (collected_lookup kw_globe km_globe); [apply kw_globe_token|]. right.
      exists "a", v. split; [done|]. by vm_compute.
    + exists "semiminor_axis".
      apply (collected_lookup kw_globe km_globe); [apply kw_globe_token|]. right.
      exists "b", v. split; [done|]. by vm_compute.
Qed.

Lemma parse_srs_proj_names (srs name : string) :
  is_Some (kw_proj (parse_srs py_float srs) !! name) →
  name ∈ proj_keywords ∧ name ≠ "standard_parallels".
Proof.
  unfold parse_srs. rewrite (collected_lookup kw_proj km_proj) by apply kw_proj_token. cbn [kw_proj].
  rewrite lookup_empty. intros [[? [=]]|(k & v & _ & Hk)].
  split; [by eapply km_proj_names|].
  intros ->. revert Hk.
  assert (map_Forall (λ _ name, name ≠ "standard_parallels") km_proj) as Hall.
  { apply (bool_decide_unpack _). by vm_compute. }
  intros Hk. by apply (Hall k _ Hk).
Qed.

Lemma parse_srs_globe_names (srs name : string) :
  is_Some (kw_globe (parse_srs py_float srs) !! name) → name ∈ globe_keywords.
Proof.
  unfold parse_srs. rewrite (collected_lookup kw_globe km_globe) by apply kw_globe_token. cbn [kw_globe].
  rewrite lookup_empty. intros [[? [=]]|(k & v & _ & Hk)]. by eapply km_globe_names.
Qed.

Lemma proj_to_cartopy_construct (crs : crs_arg) (p : Proj) :
  check_crs pyproj_Proj pyproj_Proj_init crs = Ok (Some p) →
  is_latlong p = false →
  proj_to_cartopy py_float pyproj_Proj pyproj_Proj_init osr_export crs
  = construct (parse_srs py_float (exported_srs osr_export p)).
Proof.
  intros Hcheck Hll. unfold proj_to_cartopy. rewrite Hcheck. cbn [result_bind].
  rewrite Hll. unfold exported_srs. by destruct osr_export.
Qed.

Lemma proj_to_cartopy_class_inv (crs : crs_arg) (c : proj_class)
    (globe : option (gmap string (kwval N))) (kw : gmap string (kwval N)) :
  proj_to_cartopy py_float pyproj_Proj pyproj_Proj_init osr_export crs
  = Ok (Class_call c globe kw) →
  ∃ p, check_crs pyproj_Proj pyproj_Proj_init crs = Ok (Some p)
       ∧ is_latlong p = false
       ∧ construct (parse_srs py_float (exported_srs osr_export p)) = Ok (Class_call c globe kw).
Proof.
  intros Hres.
  destruct (check_crs pyproj_Proj pyproj_Proj_init crs) as [[p|]|e] eqn:Hcheck.
  - destruct (is_latlong p) eqn:Hll.
    + unfold proj_to_cartopy in Hres. rewrite Hcheck in Hres. cbn [result_bind] in Hres.
      by rewrite Hll in Hres.
    + exists p. by rewrite <- (proj_to_cartopy_construct crs p).
  - unfold proj_to_cartopy in Hres. by rewrite Hcheck in Hres.
  - unfold proj_to_cartopy in Hres. by rewrite Hcheck in Hres.
Qed.

Lemma construct_inv (st : parser_state N) (c : proj_class)
    (globe : option (gmap string (kwval N))) (kw : gmap string (kwval N)) :
  construct st = Ok (Class_call c globe kw) →
  cl st = Some c
  ∧ globe = (if bool_decide (size (kw_globe st) ≠ 0) then Some (kw_globe st) else None)
  ∧ ∃ kw0,
      kw = (if String.eqb (class_name c) "Mercator"
            then delete "false_northing" (delete "false_easting" kw0) else kw0)
      ∧ (size (kw_std st) = 0 ∧ kw0 = kw_proj st
         ∨ size (kw_std st) ≠ 0
           ∧ ∃ a b, kw_std st !! "lat_1" = Some a ∧ kw_std st !! "lat_2" = Some b
                    ∧ kw0 = <["standard_parallels" := KTuple a b]> (kw_proj st)).
Proof.
  unfold construct. intros Hres.
  destruct (if bool_decide (size (kw_std st) ≠ 0) then _ else _) as [kw0|e] eqn:Hkw;
    cbn [result_bind] in Hres; [|done].
  destruct (cl st) as [c0|]; cbn [result_bind read_local] in Hres; [|done].
  injection Hres as -> <- <-. split; [done|]. split; [done|].
  exists kw0. split; [done|].
  case_bool_decide as Hsize.
  - right. split; [done|]. unfold dict_get in Hkw.
    destruct (kw_std st !! "lat_1") as [a|]; cbn [result_bind] in Hkw; [|done].
    destruct (kw_std st !! "lat_2") as [b|]; cbn [result_bind] in Hkw; [|done].
    injection Hkw as <-. eauto.
  - left. injection Hkw as <-. split; [|done].
    destruct (decide (size (kw_std st) = 0)); [done|]. by destruct Hsize.
Qed.

(** X16: the call [proj_to_cartopy] ends in.  A projection class is called
    with keywords among the six the parser maps and [standard_parallels],
    and with nothing else.  [standard_parallels] is passed exactly when the
    string has a [lat_1] token, and is then a pair.  A globe is passed
    exactly when the string has an [a] or a [b] token, and it is built from
    the semi-axes only and is never empty. *)
Theorem proj_to_cartopy_call_shape (crs : crs_arg) (c : proj_class)
    (globe : option (gmap string (kwval N))) (kw : gmap string (kwval N)) :
  proj_to_cartopy py_float pyproj_Proj pyproj_Proj_init osr_export crs
  = Ok (Class_call c globe kw) →
  ∃ p, check_crs pyproj_Proj pyproj_Proj_init crs = Ok (Some p)
    ∧ let keys := (srs_tokens (exported_srs osr_export p)).*1 in
      (∀ k, is_Some (kw !! k) → k ∈ proj_keywords)
      ∧ (is_Some (kw !! "standard_parallels") ↔ "lat_1" ∈ keys)
      ∧ (∀ v, kw !! "standard_parallels" = Some v → ∃ a b, v = KTuple a b)
      ∧ (is_Some globe ↔ "a" ∈ keys ∨ "b" ∈ keys)
      ∧ (∀ g, globe = Some g → g ≠ ∅ ∧ ∀ k, is_Some (g !! k) → k ∈ globe_keywords).
Proof.
  intros Hres. apply proj_to_cartopy_class_inv in Hres as (p & Hcheck & Hll & Hres).
  exists p. split; [done|]. intros keys. subst keys.
  apply construct_inv in Hres as (Hcl & -> & kw0 & Hkw & Hkw0).
  set (st := parse_srs py_float (exported_srs osr_export p)) in *.
  assert (∀ k, kw !! k = if String.eqb (class_name c) "Mercator"
                         then (if bool_decide (k = "false_northing" ∨ k = "false_easting")
                               then None else kw0 !! k)
                         else kw0 !! k) as Hlook.
  { intros k. rewrite Hkw. destruct (String.eqb _ _); [|done].
    destruct (decide (k = "false_northing" ∨ k = "false_easting")) as [Hk|Hk].
    - rewrite bool_decide_true by done.
      destruct Hk as [-> | ->]; [by rewrite lookup_delete_eq|].
      by rewrite lookup_delete_ne, lookup_delete_eq.
    - rewrite bool_decide_false by done.
      rewrite !lookup_delete_ne; [done|by intros <-; apply Hk; eauto..]. }
  assert (∀ k, is_Some (kw !! k) → is_Some (kw0 !! k)) as Hsub.
  { intros k. rewrite Hlook. destruct (String.eqb _ _); [|done].
    case_bool_decide; [by intros [? [=]]|done]. }
  assert (kw !! "standard_parallels" = kw0 !! "standard_parallels") as Hsp.
  { rewrite Hlook. destruct (String.eqb _ _); [|done].
    rewrite bool_decide_false; [done|]. intros [?|?]; done. }
  split; [|split; [|split; [|split]]].
  - intros k Hk. apply Hsub in Hk.
    destruct Hkw0 as [[_ ->]|(_ & a & b & _ & _ & ->)].
    + by apply parse_srs_proj_names in Hk as [? _].
    + destruct (decide (k = "standard_parallels")) as [->|Hne].
      * unfold proj_keywords. set_solver.
      * rewrite lookup_insert_ne in Hk by done.
        by apply parse_srs_proj_names in Hk as [? _].
  - rewrite Hsp. destruct Hkw0 as [[Hsize ->]|(Hsize & a & b & Ha & Hb & ->)].
    + split.
      * intros Hk. by apply parse_srs_proj_names in Hk as [_ ?].
      * intros Hin. exfalso.
        assert (size (kw_std st) ≠ 0) as Hne by (apply parse_srs_std_size; by left).
        done.
    + rewrite lookup_insert_eq. split; [|by eexists]. intros _.
      assert (is_Some (kw_std st !! "lat_1")) as H1 by (by eexists).
      by apply parse_srs_std in H1 as [? _].
  - intros v. rewrite Hsp. destruct Hkw0 as [[Hsize ->]|(Hsize & a & b & Ha & Hb & ->)].
    + intros Hv. assert (is_Some (kw_proj st !! "standard_parallels")) as Hk by (by eexists).
      by apply parse_srs_proj_names in Hk as [_ ?].
    + rewrite lookup_insert_eq. intros [= <-]. eauto.
  - rewrite <- parse_srs_globe_size. fold st.
    case_bool_decide as Hsize; split; try done.
    all: try (by eexists).
    all: try (by intros [? [=]]).
  - intros g. case_bool_decide as Hsize; [|done]. intros [= <-]. split.
    + intros Hempty. rewrite Hempty in Hsize. by rewrite map_size_empty in Hsize.
    + intros k. apply parse_srs_globe_names.
Qed.

(** X17: [proj_to_cartopy] returns a call of a projection class only when
    the string it parsed has a [proj] token with the code of that class
    (tmerc, lcc, merc or utm), one that [float] does not accept as a number;
    the argument was then a projection, and not a geographic one. *)
Theorem proj_to_cartopy_needs_class (crs : crs_arg) (c : proj_class)
    (globe : option (gmap string (kwval N))) (kw : gmap string (kwval N)) :
  proj_to_cartopy py_float pyproj_Proj pyproj_Proj_init osr_export crs
  = Ok (Class_call c globe kw) →
  ∃ p, check_crs pyproj_Proj pyproj_Proj_init crs = Ok (Some p)
       ∧ is_latlong p = false
       ∧ ("proj", proj_code c) ∈ srs_tokens (exported_srs osr_export p)
       ∧ py_float (proj_code c) = None.
Proof.
  intros Hres. apply proj_to_cartopy_class_inv in Hres as (p & Hcheck & Hll & Hres).
  exists p. split; [done|]. split; [done|].
  apply construct_inv in Hres as (Hcl & _).
  unfold parse_srs in Hcl. by apply cl_tokens in Hcl as [Hcl|?].
Qed.

(** X18: how [proj_to_cartopy] fails on a projection that is not geographic.
    A string with a [lat_1] token and no [lat_2] token makes it raise
    KeyError for [lat_2], and the other way round for [lat_1], whether or
    not a class was resolved.  With both or neither, a string without a
    [proj] token of a known code makes it raise UnboundLocalError for the
    class variable. *)
Theorem proj_to_cartopy_failures (crs : crs_arg) (p : Proj) :
  check_crs pyproj_Proj pyproj_Proj_init crs = Ok (Some p) →
  is_latlong p = false →
  let tokens := srs_tokens (exported_srs osr_export p) in
  let run := proj_to_cartopy py_float pyproj_Proj pyproj_Proj_init osr_export crs in
  ("lat_1" ∈ tokens.*1 → "lat_2" ∉ tokens.*1 → run = Raise (KeyError "lat_2"))
  ∧ ("lat_1" ∉ tokens.*1 → "lat_2" ∈ tokens.*1 → run = Raise (KeyError "lat_1"))
  ∧ (("lat_1" ∈ tokens.*1 ↔ "lat_2" ∈ tokens.*1) →
     (∀ c, ("proj", proj_code c) ∉ tokens) →
     run = Raise (UnboundLocalError "cl")).
Proof.
  intros Hcheck Hll tokens run. unfold run.
  rewrite (proj_to_cartopy_construct crs p Hcheck Hll).
  set (st := parse_srs py_float (exported_srs osr_export p)).
  assert (∀ name, name = "lat_1" ∨ name = "lat_2" →
            (is_Some (kw_std st !! name) ↔ name ∈ tokens.*1)) as Hstd.
  { intros name Hname. unfold st. rewrite parse_srs_std. tauto. }
  pose proof (parse_srs_std_size (exported_srs osr_export p)) as Hsize.
  fold st tokens in Hsize.
  split; [|split].
  - intros H1 H2. unfold construct.
    rewrite bool_decide_true by (apply Hsize; by left).
    apply Hstd in H1 as [a Ha]; [|by left]. unfold dict_get. rewrite Ha. cbn [result_bind].
    destruct (kw_std st !! "lat_2") as [b|] eqn:Hb; [|done].
    destruct H2. apply Hstd; [by right|by eexists].
  - intros H1 H2. unfold construct.
    rewrite bool_decide_true by (apply Hsize; by right).
    unfold dict_get. destruct (kw_std st !! "lat_1") as [a|] eqn:Ha; [|done].
    destruct H1. apply Hstd; [by left|by eexists].
  - intros Hboth Hnone.
    assert (cl st = None) as Hcl.
    { destruct (cl st) as [c|] eqn:Hc; [|done].
      unfold st, parse_srs in Hc. apply cl_tokens in Hc as [Hc|[Hin _]]; [done|].
      by destruct (Hnone c). }
    unfold construct. rewrite Hcl.
    case_bool_decide as Hne.
    + assert ("lat_1" ∈ tokens.*1 ∧ "lat_2" ∈ tokens.*1) as [H1 H2] by tauto.
      apply Hstd in H1 as [a Ha]; [|by left]. apply Hstd in H2 as [b Hb]; [|by right].
      unfold dict_get. by rewrite Ha, Hb.
    + done.
Qed.

End ParserFacts.

(** X16 witness: the Mercator string; no parallels and no globe. *)
Lemma proj_to_cartopy_call_shape_witness :
  ∃ p, check_crs no_pyproj no_pyproj (AProj {| is_latlong := false; srs := merc_srs |})
       = Ok (Some p)
    ∧ let keys := (srs_tokens (exported_srs None p)).*1 in
      let kw : gmap string (kwval float) := {["central_latitude" := KNum 0%float]} in
      (∀ k, is_Some (kw !! k) → k ∈ proj_keywords)
      ∧ (is_Some (kw !! "standard_parallels") ↔ "lat_1" ∈ keys)
      ∧ (∀ v, kw !! "standard_parallels" = Some v → ∃ a b, v = KTuple a b)
      ∧ (is_Some (@None (gmap string (kwval float))) ↔ "a" ∈ keys ∨ "b" ∈ keys)
      ∧ (∀ g, @None (gmap string (kwval float)) = Some g →
           g ≠ ∅ ∧ ∀ k, is_Some (g !! k) → k ∈ globe_keywords).
Proof.
  apply (proj_to_cartopy_call_shape float_of_digits no_pyproj no_pyproj None
           (AProj {| is_latlong := false; srs := merc_srs |}) Mercator).
  vm_compute. reflexivity.
Defined.

(** X17 witness: the Mercator string has the token [proj=merc]. *)
Lemma proj_to_cartopy_needs_class_witness :
  ∃ p, check_crs no_pyproj no_pyproj (AProj {| is_latlong := false; srs := merc_srs |})
       = Ok (Some p)
       ∧ is_latlong p = false
       ∧ ("proj", proj_code Mercator) ∈ srs_tokens (exported_srs None p)
       ∧ float_of_digits (proj_code Mercator) = None.
Proof.
  apply (proj_to_cartopy_needs_class float_of_digits no_pyproj no_pyproj None
           (AProj {| is_latlong := false; srs := merc_srs |}) Mercator None
           {["central_latitude" := KNum 0%float]}).
  vm_compute. reflexivity.
Defined.

(** X18 witness: a Lambert conformal string with one standard parallel. *)
Lemma proj_to_cartopy_failures_witness :
  proj_to_cartopy float_of_digits no_pyproj no_pyproj None
    (AProj {| is_latlong := false; srs := lcc_srs |})
  = Raise (KeyError "lat_2").
Proof.
  destruct (proj_to_cartopy_failures float_of_digits no_pyproj no_pyproj None
              (AProj {| is_latlong := false; srs := lcc_srs |})
              {| is_latlong := false; srs := lcc_srs |} eq_refl eq_refl) as [Hone _].
  apply Hone.
  - apply (bool_decide_unpack _). vm_compute. exact I.
  - apply (bool_decide_unpack _). vm_compute. exact I.
Defined.

(** ** [process_crs] *)

Section ProcessCRSFacts.
Context {N C : Type} (py_float : string → option N).
Context (pyproj_Proj pyproj_Proj_init : crs_arg → result Proj).
Context (osr_export : option (string → string)).
Context (ccrs_epsg : string + Z → result C).

(** X19: [process_crs] fails with a ValueError and nothing else, except on
    an integer code, where the failure of [ccrs.epsg] comes out as it is.  A
    string that starts with epsg fails with the EPSG message, any other
    string and any Proj object with the proj4 message, and an argument of
    any other kind with the message that lists the accepted kinds. *)
Theorem process_crs_errors (crs : crs_spec C) (e : exn) :
  process_crs py_float pyproj_Proj pyproj_Proj_init osr_export ccrs_epsg crs = Raise e →
  match crs with
  | SInt code => ccrs_epsg (inr code) = Raise e
  | SStr s => e = if String.prefix "epsg" (str_lower s) then epsg_error else proj4_error
  | SProj _ => e = proj4_error
  | _ => e = crs_type_error
  end.
Proof.
  unfold process_crs. destruct crs as [|s|code|p|c|]; try done.
  - destruct (String.prefix "epsg" (str_lower s)).
    + destruct (ccrs_epsg _); [done|]. by intros [= <-].
    + destruct (proj_to_cartopy _ _ _ _ _); [done|]. by intros [= <-].
  - destruct (ccrs_epsg _); [done|]. by intros [= <-].
  - destruct (proj_to_cartopy _ _ _ _ _); [done|]. by intros [= <-].
  - by intros [= <-].
Qed.

(** X20: on a string whose first four characters are epsg in any mix of
    upper and lower case, [process_crs] looks the code up in the registry and
    never consults the proj4 parser.  The code is what follows the fifth
    character, stripped of white space; the fifth character itself is not
    looked at.  A failure of the lookup, of any class, becomes the ValueError
    with the EPSG message. *)
Theorem process_crs_epsg_prefix (pre rest : string) (sep : ascii) :
  str_lower pre = "epsg" →
  process_crs py_float pyproj_Proj pyproj_Proj_init osr_export ccrs_epsg
    (SStr (pre +:+ String sep rest))
  = match ccrs_epsg (inl (str_strip rest)) with
    | Ok crs => Ok (Object crs)
    | Raise _ => Raise epsg_error
    end.
Proof.
  intros Hpre.
  destruct pre as [|a [|b [|c [|d [|x pre]]]]]; try discriminate Hpre.
  cbn [str_lower] in Hpre. injection Hpre as Ha Hb Hc Hd.
  unfold process_crs.
  change (String a (String b (String c (String d EmptyString))) +:+ String sep rest)
    with (String a (String b (String c (String d (String sep rest))))).
  cbn [str_lower String.prefix str_drop]. rewrite Ha, Hb, Hc, Hd.
  destruct (ascii_dec "e" "e"); [|done]. destruct (ascii_dec "p" "p"); [|done].
  destruct (ascii_dec "s" "s"); [|done]. destruct (ascii_dec "g" "g"); [|done].
  done.
Qed.

End ProcessCRSFacts.

(** X19 witness: an unknown integer code; the registry's own failure. *)
Lemma process_crs_errors_witness :
  one_epsg (inr 1%Z) = Raise (OtherError "HTTPError" "404").
Proof.
  apply (process_crs_errors float_of_digits no_pyproj no_pyproj None one_epsg (SInt 1%Z)).
  reflexivity.
Defined.

(** X20 witness: mixed case, a letter where the colon would be, and blanks
    around the code. *)
Lemma process_crs_epsg_prefix_witness :
  process_crs float_of_digits no_pyproj no_pyproj None one_epsg (SStr "EpSgX 4326 ")
  = Ok (Object "WGS 84").
Proof.
  apply (process_crs_epsg_prefix float_of_digits no_pyproj no_pyproj None one_epsg
           "EpSg" " 4326 " "X").
  reflexivity.
Defined.

(** ** Extent Reprojector: what can fail, and where the clipped box lies *)

Section ExtentsErrors.
Context {F : Type} `{Numeric F}.


End ExtentsErrors.

Lemma fold_fmin_bounds (m x : Q) (l : list Q) :
  (m <= x)%Q → Forall (λ v, (m <= v)%Q) l →
  (m <= foldl fmin x l)%Q ∧ (foldl fmin x l <= x)%Q.
Proof.
  intros Hx Hl. revert x Hx. induction Hl as [|v l Hv _ IH]; intros x Hx.
  - simpl. lra.
  - cbn [foldl].
    assert (m <= fmin x v ∧ fmin x v <= x)%Q as [Hlo Hhi].
    { unfold fmin. cbn [fltb Q_Numeric]. destruct (Qltb v x) eqn:Hlt.
      - apply Qltb_lt in Hlt. lra.
      - lra. }
    destruct (IH (fmin x v) Hlo) as [Hlo' Hhi']. lra.
Qed.

Lemma fold_fmax_lt (x m : Q) (l : list Q) :
  (x < m)%Q → Forall (λ v, (v < m)%Q) l → (foldl fmax x l < m)%Q.
Proof.
  intros Hx Hl. revert x Hx. induction Hl as [|v l Hv _ IH]; intros x Hx; [done|].
  cbn [foldl]. apply IH. unfold fmax. cbn [fltb Q_Numeric]. by destruct (Qltb x v).
Qed.

Lemma wrapped_extremes (lon : Q) (lons : list Q) :
  ∃ lo hi,
    np_min (wrap_lons (lon :: lons) (-180)%Q 360%Q) = Ok lo
    ∧ np_max (wrap_lons (lon :: lons) (-180)%Q 360%Q) = Ok hi
    ∧ (-180 <= lo)%Q ∧ (lo <= hi)%Q ∧ (hi < 180)%Q.
Proof.
  unfold wrap_lons. rewrite fmap_cons. cbn [np_min np_max].
  eexists _, _. split; [reflexivity|]. split; [reflexivity|].
  assert (∀ v, (-180 <= wrap_lon (-180) 360 v)%Q ∧ (wrap_lon (-180) 360 v < 180)%Q) as Hw.
  { intros v. destruct (wrap_lon_range (-180) 360 v eq_refl) as [Hlo Hhi].
    split; [done|]. lra. }
  set (w := wrap_lon (-180)%Q 360%Q) in *. clearbody w.
  destruct (fold_fmin_bounds (-180) (w lon) (w <$> lons)) as [Hlo Hle].
  { apply Hw. }
  { rewrite Forall_fmap. apply Forall_forall. intros v _. apply Hw. }
  destruct (fold_fmax_ge (w lon) (w <$> lons)) as [Hge _].
  pose proof (fold_fmax_lt (w lon) 180 (w <$> lons)) as Hlt.
  split; [done|]. split; [lra|]. apply Hlt.
  - apply Hw.
  - rewrite Forall_fmap. apply Forall_forall. intros v _. apply Hw.
Qed.


(** ** Array Recoverer on polygons and nested geometries *)

Section RecovererMore.
Context {A : Type} `{Coord A}.

Lemma geom_to_arr_polygon (shell : list (A * A)) (holes : list (list (A * A))) :
  geom_to_arr (Polygon shell holes) = Ok shell.
Proof.
  assert ((2 * length shell) mod 2 = 0) as Heven.
  { by rewrite Nat.mul_comm, Nat.Div0.mod_mul. }
  unfold geom_to_arr. cbn [array_interface_data result_bind].
  rewrite flat_coords_length, bool_decide_false by (rewrite Heven; tauto).
  by rewrite reshape2_flat_coords.
Qed.

Lemma geom_to_arr_raise (g : geometry A) (e : exn) :
  geom_to_arr g = Raise e →
  e = NotImplementedError "Multi-part geometries have no ctypes representations".
Proof.
  unfold geom_to_arr. destruct g; cbn [array_interface_data result_bind]; try done.
  all: by intros [= <-].
Qed.

Lemma geom_to_array_part_nested (gs : list (geometry A)) (st : list (list A) * list (list A)) :
  Exists (λ g, geom_type g = "MultiLineString" ∨ geom_type g = "MultiPolygon"
               ∨ geom_type g = "GeometryCollection") gs →
  foldlM geom_to_array_part st gs
  = Raise (NotImplementedError "Multi-part geometries have no ctypes representations").
Proof.
  intros Hex. revert st. induction Hex as [g gs Hg|g gs _ IH]; intros [xs ys].
  - cbn [foldlM]. unfold geom_to_array_part, geom_to_arr.
    destruct g; cbn [geom_type] in Hg; try (by destruct Hg as [?|[?|?]]); done.
  - cbn [foldlM]. destruct (geom_to_array_part (xs, ys) g) as [st'|e] eqn:Hpart.
    + cbn [result_bind]. apply IH.
    + cbn [result_bind]. unfold geom_to_array_part in Hpart.
      destruct (geom_to_arr g) as [arr|e'] eqn:Harr; cbn [result_bind] in Hpart; [done|].
      injection Hpart as <-. by rewrite (geom_to_arr_raise g e').
Qed.


(** X24: [geom_to_array] does not descend into nested collections.  On a
    Multi geometry or collection that holds a MultiLineString, a
    MultiPolygon or a GeometryCollection among its parts it raises
    NotImplementedError, wherever that part stands. *)
Theorem geom_to_array_nested (geom : geometry A) (gs : list (geometry A)) :
  has_parts geom = true →
  iter_geom geom = Ok gs →
  Exists (λ g, geom_type g = "MultiLineString" ∨ geom_type g = "MultiPolygon"
               ∨ geom_type g = "GeometryCollection") gs →
  geom_to_array geom
  = Raise (NotImplementedError "Multi-part geometries have no ctypes representations").
Proof.
  intros Hparts Hiter Hex.
  destruct geom; try discriminate Hparts.
  all: injection Hiter as ->.
  all: unfold geom_to_array; cbn [has_exterior geom_type String.eqb Ascii.eqb Bool.eqb orb
                                  iter_geom result_bind].
  all: by rewrite geom_to_array_part_nested.
Qed.

End RecovererMore.


(** X24 witness: a collection of a line and a MultiLineString. *)
Lemma geom_to_array_nested_witness :
  geom_to_array (GeometryCollection [LineString [(0, 0); (1, 1)]%float; three_lines])
  = Raise (NotImplementedError "Multi-part geometries have no ctypes representations").
Proof.
  apply (geom_to_array_nested _ [LineString [(0, 0); (1, 1)]%float; three_lines]).
  - reflexivity.
  - reflexivity.
  - right. left. left. reflexivity.
Defined.

(** ** Geometry input of the builders *)

Section GeometryInput.
Context {A : Type} `{Coord A}.

Lemma exteriors_of_polygons (gs lines : list (geometry A)) :
  Forall (λ p, has_exterior p = true) gs →
  foldlM (λ lines geom, e <- exterior geom; Ok (lines ++ [e])) lines gs
  = Ok (lines ++ (LinearRing <$> (coords_of <$> gs))).
Proof.
  intros Hgs. revert lines. induction Hgs as [|g gs Hg _ IH]; intros lines.
  - simpl. by rewrite app_nil_r.
  - destruct g; try discriminate Hg. cbn [foldlM exterior result_bind].
    rewrite IH. csimpl. by rewrite <- app_assoc.
Qed.

Lemma foldl_snoc {X : Type} (f : X → geometry A) (gs : list X) (lines : list (geometry A)) :
  foldl (λ lines geom, lines ++ [f geom]) lines gs = lines ++ (f <$> gs).
Proof.
  revert lines. induction gs as [|g gs IH]; intros lines; simpl.
  - by rewrite app_nil_r.
  - by rewrite IH, <- app_assoc.
Qed.

Lemma path_to_geom_geom_outlines (lines : list (geometry A)) (g : geometry A) :
  polygon_parts g → path_to_geom_geom lines g = Ok (lines ++ outlines g).
Proof.
  intros Hg. unfold path_to_geom_geom.
  destruct g; cbn [geom_type String.eqb Ascii.eqb Bool.eqb exterior result_bind iter_geom
                   outlines]; try done.
  - by rewrite (foldl_snoc id), list_fmap_id.
  - by apply exteriors_of_polygons.
Qed.


Section Hulls.
Variable convex_hull : geometry A → geometry A.

Lemma polygon_to_geom_geom_hulls (lines : list (geometry A)) (g : geometry A) :
  polygon_to_geom_geom convex_hull lines g = Ok (lines ++ hulls convex_hull g).
Proof.
  unfold polygon_to_geom_geom.
  destruct g; cbn [geom_type String.eqb Ascii.eqb Bool.eqb result_bind iter_geom hulls];
    try done.
  - by rewrite foldl_snoc.
  - by rewrite (foldl_snoc id), list_fmap_id.
Qed.


End Hulls.

(** ** Hole lists that are missing *)

Lemma polygons_body_index_error (skip_invalid no_splits : bool)
    (subholes : list (list (geometry A))) (parts : list (list (A * A))) (k : nat)
    (st : bool * list (geometry A)) :
  (∃ j part, parts !! j = Some part ∧ 3 ≤ length part ∧ subholes !! (k + j) = None) →
  foldlM (polygons_body skip_invalid true no_splits subholes) st (enumerate_from k parts)
  = Raise (IndexError "list index out of range").
Proof.
  revert k st. induction parts as [|part parts IH]; intros k [invalid subpolys] (j & p & Hj & Hlen & Hnone).
  - done.
  - cbn [enumerate_from foldlM].
    assert (∀ e, polygons_body skip_invalid true no_splits subholes (invalid, subpolys) (k, part)
                 = Raise e → e = IndexError "list index out of range") as Herr.
    { intros e. unfold polygons_body. cbn [fst snd].
      case_bool_decide; [by destruct skip_invalid|].
      unfold py_index. destruct (subholes !! k); [by destruct no_splits|].
      destruct no_splits; by intros [= <-]. }
    destruct j as [|j].
    + injection Hj as <-. rewrite Nat.add_0_r in Hnone.
      unfold polygons_body. cbn [fst snd]. rewrite bool_decide_false by lia.
      unfold py_index. rewrite Hnone. by destruct no_splits.
    + destruct (polygons_body _ _ _ _ _ (k, part)) as [st'|e] eqn:Hstep.
      * cbn [result_bind]. apply IH. exists j, p. split; [done|]. split; [done|].
        by replace (S k + j) with (k + S j) by lia.
      * cbn [result_bind]. by rewrite (Herr e).
Qed.

(** X27: with holes declared, [polygons_to_geom_dicts] needs a hole list for
    every part of at least three vertices.  When the first feature has no
    entry in the holes at all, or has such a part at a position for which its
    entry has no list, the call raises IndexError. *)
Theorem polygons_to_geom_dicts_missing_holes (polygons : element A) (skip_invalid : bool)
    (xdim ydim : string) (d rest : gmap string (pyval A)) (ds : list (gmap string (pyval A)))
    (array : list (A * A)) :
  interface_datatype polygons ≠ "geodataframe" →
  interface_datatype polygons ≠ "geom_dictionary" →
  kdims polygons = [xdim; ydim] →
  has_holes polygons = true →
  split_columns polygons = d :: ds →
  pop_coordinates xdim ydim d = Ok (array, rest) →
  match holes polygons with
  | [] => True
  | holes_0 :: _ =>
      ∃ j part, segments id array !! j = Some part ∧ 3 ≤ length part ∧ holes_0 !! j = None
  end →
  polygons_to_geom_dicts polygons skip_invalid = Raise (IndexError "list index out of range").
Proof.
  intros Hgdf Hgd Hk Hh Hds Hpop Hmissing. unfold polygons_to_geom_dicts.
  destruct (String.eqb_spec (interface_datatype polygons) "geodataframe"); [done|].
  destruct (String.eqb_spec (interface_datatype polygons) "geom_dictionary"); [done|].
  rewrite Hk, Hh, Hds. cbn [unpack2 result_bind enumerate enumerate_from foldlM].
  unfold polygons_feature at 1. cbn [fst snd]. rewrite Hpop. cbn [result_bind].
  unfold polygons_subpolys, py_index.
  destruct (holes polygons) as [|holes_0 hs]; [done|]. cbn [lookup list_lookup result_bind].
  destruct Hmissing as (j & part & Hj & Hlen & Hnone).
  unfold polygons_part.
  rewrite <- (foldlM_fmap _
    (λ ja : nat * list (A * A), (ja.1, drop_nan (split_at_nans id array) ja.1 ja.2))).
  unfold enumerate.
  rewrite <- (enumerate_from_fmap (drop_nan (split_at_nans id array))).
  fold (enumerate (split_at_nans id array)). fold (segments id array).
  rewrite polygons_body_index_error; [done|].
  exists j, part. split; [done|]. split; [done|].
  cbn [Nat.add]. rewrite !list_lookup_fmap, Hnone. done.
Qed.

End GeometryInput.



(** X27 witness: two rings and a hole list for the first only. *)
Lemma polygons_to_geom_dicts_missing_holes_witness :
  polygons_to_geom_dicts two_rings_one_list true
  = Raise (IndexError "list index out of range").
Proof.
  apply (polygons_to_geom_dicts_missing_holes two_rings_one_list true "x" "y"
           (feature ((ring_a ++ [(nan, nan)%float] ++ ring_b).*1)
                    ((ring_a ++ [(nan, nan)%float] ++ ring_b).*2) "a")
           (<["name" := VAttr "a"]> ∅) []
           (ring_a ++ [(nan, nan)%float] ++ ring_b)).
  - vm_compute. discriminate.
  - vm_compute. discriminate.
  - reflexivity.
  - reflexivity.
  - reflexivity.
  - vm_compute. reflexivity.
  - exists 1, ring_b. split; [vm_compute; reflexivity|]. split; [vm_compute; lia|].
    reflexivity.
Defined.

(** ** [geo_mesh] *)

Section GeoMeshFacts.
Context {F : Type} `{Numeric F} (feqb : F → F → bool).
Context (np_dstack : list (list (list F)) → result (list (list (list F)))).

Lemma append_first_column_lengths {X : Type} (rows : list (list X)) (n : nat) :
  Forall (λ row, length row = n) rows →
  Forall (λ row, length row = n + Nat.min 1 n) (append_first_column rows).
Proof.
  intros Hrows. unfold append_first_column. rewrite Forall_fmap.
  eapply Forall_impl; [exact Hrows|]. intros row Hrow. unfold compose. cbn beta in *.
  rewrite length_app, length_take, Hrow. done.
Qed.

Lemma append_first_column_wraps {X : Type} (rows : list (list X)) (row : list X) (x : X) :
  row ∈ append_first_column rows → row !! 0 = Some x → last row = Some x.
Proof.
  unfold append_first_column. intros Hin Hx.
  apply list_elem_of_fmap in Hin as (row0 & -> & _).
  destruct row0 as [|x0 row0]; [done|]. simpl in Hx. injection Hx as ->.
  change (take 1 (x :: row0)) with [x]. by rewrite last_snoc.
Qed.


End GeoMeshFacts.

